(** * Datacom container backup: a model of [src/backup.py] and its properties

    The development embeds the backup script as Rocq functions with explicit
    state passing.  Text is a list of characters, the backup tree is a list of
    files with their modification times, a Python exception is a value of
    [exn], and whatever the script reads from the outside world (the device
    session, the clock, failures of the operating system or of Git) is an
    explicit argument.  The first part holds the model, module by module in
    the order of the script; the second part holds the proofs. *)

From Stdlib Require Import List Ascii String DecimalString ZArith QArith Bool Arith Lia.
From Stdlib Require Import Permutation Sorted.
Import ListNotations.

Close Scope Q_scope.
Local Open Scope bool_scope.
Local Open Scope nat_scope.
Local Open Scope list_scope.

(* ================================================================== *)
(** * Part I: the model *)
(* ================================================================== *)

(** ** Python strings

    A [str] is a list of code points below 256.  The character classes are
    those of Python's [str] on that range. *)

Definition str := list ascii.

Definition lit (s : string) : str := list_ascii_of_string s.

Arguments lit _ : simpl never.

Definition code (c : ascii) : nat := nat_of_ascii c.

Definition nl : ascii := ascii_of_nat 10.

(** [str.isspace] for one character: TAB..CR, FS..US, space, NEL, NBSP. *)
Definition isspace (c : ascii) : bool :=
  let n := code c in
  ((9 <=? n) && (n <=? 13)) || ((28 <=? n) && (n <=? 32))
  || (n =? 133) || (n =? 160).

(** [str.lower] for one character: A-Z, and the Latin-1 capitals except the
    multiplication sign. *)
Definition lower_char (c : ascii) : ascii :=
  let n := code c in
  if ((65 <=? n) && (n <=? 90))
     || ((192 <=? n) && (n <=? 222) && negb (n =? 215))
  then ascii_of_nat (n + 32) else c.

Definition lower (s : str) : str := map lower_char s.

Fixpoint str_eqb (a b : str) : bool :=
  match a, b with
  | [], [] => true
  | x :: a', y :: b' => Ascii.eqb x y && str_eqb a' b'
  | _, _ => false
  end.

(** [s.startswith(p)] *)
Fixpoint startswith (p s : str) : bool :=
  match p, s with
  | [], _ => true
  | x :: p', y :: s' => Ascii.eqb x y && startswith p' s'
  | _ :: _, [] => false
  end.

(** [sub in s] *)
Fixpoint contains (sub s : str) : bool :=
  startswith sub s ||
  match s with
  | [] => false
  | _ :: s' => contains sub s'
  end.

Fixpoint lstrip (s : str) : str :=
  match s with
  | [] => []
  | c :: s' => if isspace c then lstrip s' else s
  end.

Definition rstrip (s : str) : str := rev (lstrip (rev s)).

(** [s.strip()] *)
Definition strip (s : str) : str := rstrip (lstrip s).

(** [s.split()]: the maximal runs of non-space characters. *)
Fixpoint py_split (s : str) : list str :=
  match s with
  | [] => []
  | c :: s' =>
      if isspace c then py_split s'
      else match s' with
           | [] => [[c]]
           | d :: _ =>
               if isspace d then [c] :: py_split s'
               else match py_split s' with
                    | t :: ts => (c :: t) :: ts
                    | [] => [[c]]
                    end
           end
  end.

(** [s.split(sep)] for a one-character separator: empty fields are kept and
    the result is never empty. *)
Fixpoint split_on (sep : ascii) (s : str) : list str :=
  match s with
  | [] => [[]]
  | c :: s' =>
      if Ascii.eqb c sep then [] :: split_on sep s'
      else match split_on sep s' with
           | t :: ts => (c :: t) :: ts
           | [] => [[c]]
           end
  end.

(** [s.replace(old, new)] for a one-character [old]. *)
Definition replace (old : ascii) (new : str) (s : str) : str :=
  flat_map (fun c => if Ascii.eqb c old then new else [c]) s.

(** Truth value of an environment variable: unset and empty are false. *)
Definition truthy (v : option str) : bool :=
  match v with
  | Some (_ :: _) => true
  | _ => false
  end.

(** The text of a variable that is set. *)
Definition getenv (v : option str) : str :=
  match v with
  | Some s => s
  | None => []
  end.

(** Truth value of a list. *)
Definition nonempty_list {A : Type} (l : list A) : bool :=
  match l with
  | [] => false
  | _ :: _ => true
  end.

(** Truth value of a string ([if host]). *)
Definition nonempty (s : str) : bool :=
  match s with
  | [] => false
  | _ :: _ => true
  end.

(** ** Identity extraction and sanitization ([backup_router], lines 136-146) *)

Module ConfigParser.

Definition keyword : str := lit "hostname".

(** The loop of lines 138-143 over the remaining lines; [device_hostname] is
    the value the variable holds when the loop is entered. *)
Fixpoint scan_lines (device_hostname : str) (lines : list str) : str :=
  match lines with
  | [] => device_hostname
  | line :: rest =>
      if contains keyword (lower line)
         && negb (startswith (lit "!") (strip line))
         && negb (startswith (lit "#") (strip line))
      then
        let parts := py_split line in
        if (2 <=? List.length parts) && str_eqb (lower (nth 0 parts [])) keyword
        then nth 1 parts []
        else scan_lines device_hostname rest
      else scan_lines device_hostname rest
  end.

(** Lines 137-143: the identity of the device at address [hostname] whose
    configuration dump is [config_output]. *)
Definition extract_hostname (hostname config_output : str) : str :=
  scan_lines (strip hostname) (split_on nl config_output).

(** Line 146. *)
Definition sanitize (device_hostname : str) : str :=
  replace "|" (lit "_")
    (replace ">" (lit "_")
      (replace "<" (lit "_")
        (replace (ascii_of_nat 34) (lit "_")
          (replace "?" (lit "_")
            (replace "*" (lit "_")
              (replace ":" (lit "_")
                (replace (ascii_of_nat 92) (lit "_")
                  (replace "/" (lit "_")
                    (replace ";" [] device_hostname))))))))).

(** The characters line 146 names. *)
Definition reserved (c : ascii) : bool :=
  existsb (Ascii.eqb c)
    [";"; "/"; ascii_of_nat 92; ":"; "*"; "?"; ascii_of_nat 34; "<"; ">"; "|"]%char.

(** What line 146 does to one character: the semicolon goes, the other nine
    become an underscore, everything else stays. *)
Definition sanitize_char (c : ascii) : str :=
  if Ascii.eqb c ";" then []
  else if reserved c then lit "_" else [c].

(** Sanitization as a replacement in place: every character of some class
    [special] gives way to one substitute character, the rest stay. *)
Definition replaces_in_place (special : ascii -> bool) (substitute : ascii) : Prop :=
  forall s,
    sanitize s = map (fun c => if special c then substitute else c) s.

(** The characters that separate words in a POSIX shell. *)
Definition shell_metacharacter (c : ascii) : bool :=
  existsb (Ascii.eqb c)
    ["|"; "&"; ";"; "("; ")"; "<"; ">"; " "; ascii_of_nat 9; nl]%char.

(** The reading of the extraction contract that takes every line whose
    first token is the keyword as a match. *)
Definition first_token_is_keyword (line : str) : bool :=
  match py_split line with
  | t :: _ => str_eqb (lower t) keyword
  | [] => false
  end.

(** A line the loop stops at: at least two tokens, the first one the
    keyword in any letter case. *)
Definition names_host (line : str) : bool :=
  match py_split line with
  | t :: _ :: _ => str_eqb (lower t) keyword
  | _ => false
  end.

(** The extraction contract read literally: the first line whose first
    token is the keyword decides, its second token is the result, and one
    fixed value [sentinel] stands for the absence of such a line. *)
Definition extraction_as_stated (sentinel : str) : Prop :=
  forall hostname config_output,
    extract_hostname hostname config_output =
    match find first_token_is_keyword (split_on nl config_output) with
    | Some line => nth 1 (py_split line) []
    | None => sentinel
    end.

End ConfigParser.

(** ** Configuration (module level, lines 16-22 and 59) *)

Record config := {
  ROUTER_HOSTS : list str;
  PORT : str;
  USERNAME : option str;
  PASSWORD : option str;
  BACKUP_DIR : str;
  TELEGRAM_BOT_TOKEN : option str;
  TELEGRAM_CHAT_ID : option str;
  MAX_BACKUPS : Z
}.

(** Line 16: [os.getenv("ROUTER_HOSTS", "").split(",")]. *)
Definition load_router_hosts (v : option str) : list str :=
  split_on "," (getenv v).

(** ** Time (lines 27-28, 103, 167-168) *)

Record datetime := {
  year : nat; month : nat; day : nat;
  hour : nat; minute : nat; second : nat; microsecond : nat
}.

Definition digit (n : nat) : ascii := ascii_of_nat (48 + n mod 10).

Definition pad2 (n : nat) : str := [digit (n / 10); digit n].

Definition pad4 (n : nat) : str :=
  [digit (n / 1000); digit (n / 100); digit (n / 10); digit n].

(** [strftime("%Y%m%d_%H%M%S")] *)
Definition get_timestamp (now : datetime) : str :=
  pad4 (year now) ++ pad2 (month now) ++ pad2 (day now) ++ lit "_"
  ++ pad2 (hour now) ++ pad2 (minute now) ++ pad2 (second now).

Definition is_leap (y : nat) : bool :=
  ((y mod 4 =? 0) && negb (y mod 100 =? 0)) || (y mod 400 =? 0).

Definition days_before_year (y : nat) : Z :=
  let y1 := (Z.of_nat y - 1)%Z in
  (y1 * 365 + y1 / 4 - y1 / 100 + y1 / 400)%Z.

Definition days_in_month (y m : nat) : nat :=
  match m with
  | 2 => if is_leap y then 29 else 28
  | 4 | 6 | 9 | 11 => 30
  | _ => 31
  end.

Definition days_before_month (y m : nat) : nat :=
  list_sum (map (days_in_month y) (seq 1 (m - 1))).

(** Microseconds since the start of the proleptic Gregorian calendar. *)
Definition to_microseconds (t : datetime) : Z :=
  let days :=
    (days_before_year (year t)
     + Z.of_nat (days_before_month (year t) (month t)) + Z.of_nat (day t))%Z in
  let secs :=
    (((days * 24 + Z.of_nat (hour t)) * 60 + Z.of_nat (minute t)) * 60
     + Z.of_nat (second t))%Z in
  (secs * 1000000 + Z.of_nat (microsecond t))%Z.

(** [(b - a).total_seconds()] *)
Definition total_seconds (a b : datetime) : Q :=
  Qmake (to_microseconds b - to_microseconds a) 1000000.

(** ** The backup tree, the Git repository and standard output *)

Record file := { f_path : str; f_mtime : Z; f_data : str }.

Record store := {
  dirs : list str;      (* directories that exist *)
  files : list file;    (* regular files, in the order a listing yields them *)
  index : list str;     (* paths staged in the Git index *)
  commits : list str;   (* commit messages, oldest first *)
  stdout : list str     (* lines printed so far *)
}.

Definition print (line : str) (st : store) : store :=
  {| dirs := dirs st; files := files st; index := index st;
     commits := commits st; stdout := stdout st ++ [line] |}.

Definition set_files (fs : list file) (st : store) : store :=
  {| dirs := dirs st; files := fs; index := index st;
     commits := commits st; stdout := stdout st |}.

Definition set_dirs (ds : list str) (st : store) : store :=
  {| dirs := ds; files := files st; index := index st;
     commits := commits st; stdout := stdout st |}.

Definition endswith_slash (a : str) : bool :=
  match rev a with
  | c :: _ => Ascii.eqb c "/"
  | [] => false
  end.

(** [os.path.join(a, b)] on POSIX. *)
Definition path_join (a b : str) : str :=
  if startswith (lit "/") b then b
  else if negb (nonempty a) || endswith_slash a then a ++ b
  else a ++ lit "/" ++ b.

Definition has_path (p : str) (fs : list file) : bool :=
  existsb (fun f => str_eqb (f_path f) p) fs.

(** [os.path.exists(p)] *)
Definition path_exists (p : str) (st : store) : bool :=
  existsb (str_eqb p) (dirs st) || has_path p (files st).

(** [os.makedirs(p, exist_ok=True)] when it succeeds. *)
Definition makedirs (p : str) (st : store) : store :=
  if existsb (str_eqb p) (dirs st) then st else set_dirs (dirs st ++ [p]) st.

(** [open(p, "w")] followed by [write(data)]: an existing file is
    overwritten in place, a new one is added to its directory. *)
Definition write_file (p data : str) (mtime : Z) (fs : list file) : list file :=
  let f := {| f_path := p; f_mtime := mtime; f_data := data |} in
  if has_path p fs
  then map (fun g => if str_eqb (f_path g) p then f else g) fs
  else fs ++ [f].

(** Bytes of the UTF-8 encoding of a text of code points below 256. *)
Definition utf8_size (data : str) : nat :=
  list_sum (map (fun c => if code c <? 128 then 1 else 2) data).

(** The text of the [FileNotFoundError] for the path [p]; the path is shown
    the way Python shows a string that holds no quote and no backslash. *)
Definition no_such_file (p : str) : str :=
  lit "[Errno 2] No such file or directory: '" ++ p ++ lit "'".

(** [os.path.getsize(p)]: the bytes of the file at [p] as it is on disk;
    nothing when no file is there, where the call raises.  Files are written
    in UTF-8, the encoding [open] takes in the container. *)
Definition getsize (p : str) (fs : list file) : option nat :=
  match find (fun f => str_eqb (f_path f) p) fs with
  | Some f => Some (utf8_size (f_data f))
  | None => None
  end.

(** [os.remove(p)]: the error text when it raises, the remaining files
    otherwise.  [remove_error] is what the operating system refuses. *)
Definition os_remove (remove_error : str -> option str) (p : str)
    (fs : list file) : str + list file :=
  match remove_error p with
  | Some e => inl e
  | None =>
      if has_path p fs
      then inr (filter (fun f => negb (str_eqb (f_path f) p)) fs)
      else inl (no_such_file p)
  end.

(** A file that is still there once the paths [ps] have been removed. *)
Definition survives (ps : list str) (f : file) : bool :=
  negb (existsb (str_eqb (f_path f)) ps).

(** [glob.glob(pattern)]; [matches pattern path] is the pattern language of
    the [glob] module. *)
Definition glob (matches : str -> str -> bool) (pattern : str)
    (st : store) : list file :=
  filter (fun f => matches pattern (f_path f)) (files st).

Definition endswith (suf s : str) : bool := startswith (rev suf) (rev s).

(** The [glob] pattern language for a pattern whose only special character
    is one star in its last component. *)
Definition star_matches (pattern path : str) : bool :=
  match split_on "*" pattern with
  | [pre; suf] =>
      startswith pre path
      && endswith suf (skipn (List.length pre) path)
      && negb (existsb (Ascii.eqb "/") (skipn (List.length pre) path))
  | _ => str_eqb pattern path
  end.

(** ** Sorting and slicing *)

Section Sequences.

Context {A : Type}.
Variable key : A -> Z.

(** The order the sort establishes. *)
Definition key_le (a b : A) : Prop := (key a <= key b)%Z.

Fixpoint insert_by (x : A) (l : list A) : list A :=
  match l with
  | [] => [x]
  | y :: l' => if (key x <=? key y)%Z then x :: l else y :: insert_by x l'
  end.

(** [l.sort(key=key)]: the stable ascending sort. *)
Definition sort_by (l : list A) : list A := fold_right insert_by [] l.

(** [l[:stop]] *)
Definition slice_to (stop : Z) (l : list A) : list A :=
  let n := Z.of_nat (List.length l) in
  let k := if (stop <? 0)%Z then Z.max 0 (stop + n) else Z.min stop n in
  firstn (Z.to_nat k) l.

End Sequences.

(** ** Committing ([commit_to_git], lines 61-71)

    [git_add_error] and [git_commit_error] are the exceptions GitPython
    raises from [repo.index.add] and [repo.index.commit], if any. *)

(** [repo.index.add([p])]: the index has one entry for a path, so a path
    that is staged already is not listed a second time. *)
Definition index_add (p : str) (staged : list str) : list str :=
  if existsb (str_eqb p) staged then staged else staged ++ [p].

Definition commit_to_git (git_add_error git_commit_error : option str)
    (filename hostname : str) (st : store) : store :=
  let relative_path := path_join hostname filename in
  match git_add_error with
  | Some e => print (lit "Git commit failed: " ++ e) st
  | None =>
      let st1 :=
        {| dirs := dirs st; files := files st;
           index := index_add relative_path (index st);
           commits := commits st; stdout := stdout st |} in
      match git_commit_error with
      | Some e => print (lit "Git commit failed: " ++ e) st1
      | None =>
          print (lit "Committed " ++ relative_path ++ lit " to Git.")
            {| dirs := dirs st1; files := files st1; index := index st1;
               commits := commits st1
                          ++ [lit "Backup " ++ hostname ++ lit " - " ++ filename];
               stdout := stdout st1 |}
      end
  end.

(** ** Retention ([cleanup_old_backups], lines 73-99) *)

(** The loop of lines 90-92: the store when the loop ends, and the exception
    that ended it early, if any. *)
Fixpoint delete_loop (remove_error : str -> option str)
    (files_to_delete : list str) (st : store) : store * option str :=
  match files_to_delete with
  | [] => (st, None)
  | f :: rest =>
      match os_remove remove_error f (files st) with
      | inl e => (st, Some e)
      | inr fs =>
          delete_loop remove_error rest
            (print (lit "Deleted old backup: " ++ f) (set_files fs st))
      end
  end.

Definition cleanup_old_backups (matches : str -> str -> bool)
    (remove_error : str -> option str) (cfg : config)
    (hostname : str) (st : store) : store :=
  let hostname_dir := path_join (BACKUP_DIR cfg) hostname in
  if negb (path_exists hostname_dir st) then st
  else
    let pattern := path_join hostname_dir (hostname ++ lit "_*.conf") in
    let found := sort_by f_mtime (glob matches pattern st) in
    if (Z.of_nat (List.length found) >? MAX_BACKUPS cfg)%Z then
      let files_to_delete := slice_to (- MAX_BACKUPS cfg) found in
      match delete_loop remove_error (map f_path files_to_delete) st with
      | (st', None) => st'
      | (st', Some e) =>
          print (lit "Cleanup failed for " ++ hostname ++ lit ": " ++ e) st'
      end
    else st.

(** The snapshot files of an identity: what line 83 lists. *)
Definition snapshots (matches : str -> str -> bool) (cfg : config)
    (hostname : str) (st : store) : list file :=
  glob matches
    (path_join (path_join (BACKUP_DIR cfg) hostname) (hostname ++ lit "_*.conf"))
    st.

(** The exception the handler of line 98 catches, if the pass raises one. *)
Definition cleanup_raises (matches : str -> str -> bool)
    (remove_error : str -> option str) (cfg : config)
    (hostname : str) (st : store) : option str :=
  if negb (path_exists (path_join (BACKUP_DIR cfg) hostname) st) then None
  else
    let found := sort_by f_mtime (snapshots matches cfg hostname st) in
    if (Z.of_nat (List.length found) >? MAX_BACKUPS cfg)%Z then
      snd (delete_loop remove_error
             (map f_path (slice_to (- MAX_BACKUPS cfg) found)) st)
    else None.

(** ** One device ([backup_router], lines 101-206) *)

Inductive exn :=
| AuthenticationException (e : str)
| SSHException (e : str)
| OtherException (e : str).

Record details := {
  d_hostname : str;
  d_ip : str;
  d_filename : str;
  d_size_kb : Q;
  d_duration : Q;
  d_timestamp : str
}.

(** The pair a worker returns. *)
Inductive result :=
| Success (d : details)
| Failure (error_msg : str).

(** What [future.result()] does: return the worker's pair or raise. *)
Inductive future :=
| Returned (r : result)
| Raised (exc : str).

(** How lines 159-160 fail: [open] raises and the tree is as it was, or
    [write] raises after [open] has created the file or emptied it, and the
    file is left with what reached the disk. *)
Inductive write_failure :=
| OpenFails (e : str)
| WriteFails (e : str) (on_disk : str).

(** Everything one worker reads from outside the program. *)
Record device_env := {
  client_error : option str;          (* lines 106-107 raise, before the try *)
  session : exn + (str * str);        (* lines 112-131: stdout and stderr, or the exception *)
  makedirs_error : option str;        (* line 152 raises *)
  write_error : option write_failure; (* lines 159-160 raise *)
  start_time : datetime;              (* line 103 *)
  stamp_time : datetime;              (* line 155 *)
  end_time : datetime;                (* line 167 *)
  write_mtime : Z;                    (* modification time the new file gets *)
  git_add_error : option str;
  git_commit_error : option str;
  remove_error : str -> option str;
  matches : str -> str -> bool
}.

(** The three handlers of lines 190-201. *)
Definition handle (hostname : str) (x : exn) (st : store) : future * store :=
  let error_msg :=
    match x with
    | AuthenticationException e =>
        lit "Authentication failed for " ++ hostname ++ lit ": " ++ e
    | SSHException e =>
        lit "SSH error connecting to " ++ hostname ++ lit ": " ++ e
    | OtherException e =>
        lit "An error occurred with " ++ hostname ++ lit ": " ++ e
    end in
  (Returned (Failure error_msg), print error_msg st).

(** Lines 173-178: the region guarded by [GIT_LOCK]. *)
Definition critical_section (env : device_env) (cfg : config)
    (filename device_hostname : str) (st : store) : store :=
  cleanup_old_backups (matches env) (remove_error env) cfg device_hostname
    (commit_to_git (git_add_error env) (git_commit_error env)
       filename device_hostname st).

(** The local variables a worker holds once the snapshot is written. *)
Record locals := {
  l_hostname : str;    (* [device_hostname] *)
  l_timestamp : str;
  l_filename : str;
  l_filepath : str
}.

(** Lines 102-160: the session, the identity, the directory and the write.
    The left result is a worker that has already ended. *)
Definition save_config (env : device_env) (cfg : config)
    (hostname : str) (st : store) : (future + locals) * store :=
  let st := print (lit "Starting backup for " ++ hostname ++ lit "...") st in
  match client_error env with
  | Some e => (inl (Raised e), st)
  | None =>
  let st := print (lit "Connecting to " ++ hostname ++ lit "...") st in
  match session env with
  | inl x => let (r, st) := handle hostname x st in (inl r, st)
  | inr (config_output, error_output) =>
  let st := print (lit "Connected to " ++ hostname) st in
  let st :=
    if nonempty error_output
    then print (lit "Warning: stderr output: " ++ error_output) st else st in
  let device_hostname :=
    ConfigParser.sanitize (ConfigParser.extract_hostname hostname config_output) in
  let st := print (lit "Device hostname: " ++ device_hostname) st in
  let hostname_dir := path_join (BACKUP_DIR cfg) device_hostname in
  match makedirs_error env with
  | Some e => let (r, st) := handle hostname (OtherException e) st in (inl r, st)
  | None =>
  let st := makedirs hostname_dir st in
  let timestamp := get_timestamp (stamp_time env) in
  let filename := device_hostname ++ lit "_" ++ timestamp ++ lit ".conf" in
  let filepath := path_join hostname_dir filename in
  match write_error env with
  | Some (OpenFails e) =>
      let (r, st) := handle hostname (OtherException e) st in (inl r, st)
  | Some (WriteFails e on_disk) =>
      let st := set_files (write_file filepath on_disk (write_mtime env) (files st)) st in
      let (r, st) := handle hostname (OtherException e) st in (inl r, st)
  | None =>
      let st := set_files (write_file filepath config_output (write_mtime env) (files st)) st in
      (inr {| l_hostname := device_hostname;
              l_timestamp := timestamp;
              l_filename := filename;
              l_filepath := filepath |}, st)
  end end end end.

(** Lines 163-170: the size is read back from the file on disk.  The right
    result is the record the worker will return once the guarded region is
    over. *)
Definition measure (env : device_env) (hostname : str) (w : locals)
    (st : store) : (future + details) * store :=
  match getsize (l_filepath w) (files st) with
  | None =>
      let (r, st) :=
        handle hostname (OtherException (no_such_file (l_filepath w))) st in
      (inl r, st)
  | Some file_size =>
      let file_size_kb := Qmake (Z.of_nat file_size) 1024 in
      let duration := total_seconds (start_time env) (end_time env) in
      let st := print (lit "Backup saved to " ++ l_filepath w) st in
      (inr {| d_hostname := l_hostname w;
              d_ip := strip hostname;
              d_filename := l_filename w;
              d_size_kb := file_size_kb;
              d_duration := duration;
              d_timestamp := l_timestamp w |}, st)
  end.

(** Lines 102-170: everything up to the [with] statement. *)
Definition fetch_and_save (env : device_env) (cfg : config)
    (hostname : str) (st : store) : (future + details) * store :=
  match save_config env cfg hostname st with
  | (inl r, st) => (inl r, st)
  | (inr w, st) => measure env hostname w st
  end.

Definition backup_router (env : device_env) (cfg : config)
    (hostname : str) (st : store) : future * store :=
  match fetch_and_save env cfg hostname st with
  | (inl r, st) => (r, st)
  | (inr d, st) =>
      (Returned (Success d),
       critical_section env cfg (d_filename d) (d_hostname d) st)
  end.

(** ** Notification ([send_telegram_notification], lines 30-48) *)

Record request := {
  url : str;
  chat_id : str;
  text : str;
  parse_mode : str
}.

(** The requests posted so far and the lines printed so far. *)
Definition wire : Type := list request * list str.

Definition send_telegram_notification (cfg : config)
    (post_error : option str) (message : str) (w : wire) : wire :=
  let (posted, out) := w in
  if negb (truthy (TELEGRAM_BOT_TOKEN cfg)) || negb (truthy (TELEGRAM_CHAT_ID cfg))
  then
    (posted,
     out ++ [lit "Telegram credentials not configured. Skipping notification."])
  else
    let rq :=
      {| url := lit "https://api.telegram.org/bot"
                ++ getenv (TELEGRAM_BOT_TOKEN cfg) ++ lit "/sendMessage";
         chat_id := getenv (TELEGRAM_CHAT_ID cfg);
         text := message;
         parse_mode := lit "Markdown" |} in
    (posted ++ [rq],
     out ++ [match post_error with
             | None => lit "Telegram notification sent."
             | Some e => lit "Failed to send Telegram notification: " ++ e
             end]).

(** ** The orchestrator ([main], lines 208-295) *)

Record failure := { ip : str; error : str }.

(** What [Repo(BACKUP_DIR)] does at line 53. *)
Inductive repo_status :=
| IsRepository            (* it returns *)
| InvalidGitRepository    (* it raises [InvalidGitRepositoryError] *)
| RepoRaises (e : str).   (* it raises anything else *)

(** What one run reads from outside: the fate of the set-up of lines
    217-221, the result each future holds, the instant each worker finishes,
    the fate of the HTTP request, the clock, and the rendering of the message
    (lines 253-292). *)
Record job_env := {
  backup_dir_error : option str;      (* line 218 raises *)
  repository : repo_status;           (* line 53 *)
  repo_init_error : option str;       (* line 56 raises *)
  future_result : nat -> str -> future;
  finish_time : nat -> Z;
  post_error : option str;
  job_start_time : datetime;
  job_end_time : datetime;
  build_message : nat -> list details -> list failure -> Q -> datetime -> str
}.

(** What one run leaves behind. *)
Record run := {
  dispatched : list (nat * str);   (* the futures submitted, with their hosts *)
  success_details : list details;
  failed_hosts : list failure;
  posted : list request;           (* delivery attempts *)
  output : list str;
  uncaught : option str            (* the exception [main] ends with, if any *)
}.

Definition decimal (n : nat) : str :=
  lit (DecimalString.NilZero.string_of_uint (Nat.to_uint n)).

(** Line 235: one future per host that is not the empty string, numbered in
    submission order. *)
Definition submit (hosts : list str) : list (nat * str) :=
  let live := filter nonempty hosts in
  combine (seq 0 (List.length live)) live.

(** [as_completed]: the futures in the order their workers finish. *)
Definition as_completed (env : job_env) (fs : list (nat * str)) : list (nat * str) :=
  sort_by (fun f => finish_time env (fst f)) fs.

(** Lines 237-246. *)
Fixpoint collect (env : job_env) (completed : list (nat * str))
    (acc : list details * list failure) : list details * list failure :=
  match completed with
  | [] => acc
  | (i, host) :: rest =>
      let (ok, bad) := acc in
      match future_result env i host with
      | Returned (Success d) => collect env rest (ok ++ [d], bad)
      | Returned (Failure e) =>
          collect env rest (ok, bad ++ [{| ip := strip host; error := e |}])
      | Raised exc =>
          collect env rest
            (ok, bad ++ [{| ip := strip host;
                            error := lit "Thread exception: " ++ exc |}])
      end
  end.

(** The record a finished future adds to each of the two lists. *)
Definition success_of (env : job_env) (f : nat * str) : list details :=
  match future_result env (fst f) (snd f) with
  | Returned (Success d) => [d]
  | _ => []
  end.

Definition failure_of (env : job_env) (f : nat * str) : list failure :=
  match future_result env (fst f) (snd f) with
  | Returned (Success _) => []
  | Returned (Failure e) => [{| ip := strip (snd f); error := e |}]
  | Raised exc =>
      [{| ip := strip (snd f); error := lit "Thread exception: " ++ exc |}]
  end.

Definition no_routers (hosts : list str) : bool :=
  match hosts with
  | [] => true
  | [[]] => true
  | _ => false
  end.

(** Lines 50-57: the lines printed and the exception that leaves the
    function, if any; only [InvalidGitRepositoryError] has a handler. *)
Definition init_git_repo (found : repo_status) (init_error : option str)
    (out : list str) : list str * option str :=
  match found with
  | IsRepository => (out, None)
  | RepoRaises e => (out, Some e)
  | InvalidGitRepository =>
      (out ++ [lit "Initializing Git repository..."], init_error)
  end.

(** Lines 217-221, which no [try] encloses. *)
Definition setup (env : job_env) : list str * option str :=
  match backup_dir_error env with
  | Some e => ([], Some e)
  | None => init_git_repo (repository env) (repo_init_error env) []
  end.

Definition quiet (line : str) : run :=
  {| dispatched := []; success_details := []; failed_hosts := [];
     posted := []; output := [line]; uncaught := None |}.

(** A run that an exception ends before any future is submitted. *)
Definition aborted (out : list str) (e : str) : run :=
  {| dispatched := []; success_details := []; failed_hosts := [];
     posted := []; output := out; uncaught := Some e |}.

Definition main (env : job_env) (cfg : config) : run :=
  if no_routers (ROUTER_HOSTS cfg) then
    quiet (lit "No routers configured in ROUTER_HOSTS.")
  else if negb (truthy (USERNAME cfg)) || negb (truthy (PASSWORD cfg)) then
    quiet (lit "Credentials not found in environment variables.")
  else
    match setup env with
    | (out, Some e) => aborted out e
    | (out, None) =>
    let out :=
      out ++ [lit "Starting backup job for "
              ++ decimal (List.length (ROUTER_HOSTS cfg)) ++ lit " routers."] in
    let future_to_host := submit (ROUTER_HOSTS cfg) in
    let (ok, bad) := collect env (as_completed env future_to_host) ([], []) in
    let total_duration := total_seconds (job_start_time env) (job_end_time env) in
    let (sent, out) :=
      if nonempty_list bad || nonempty_list ok then
        send_telegram_notification cfg (post_error env)
          (build_message env (List.length (ROUTER_HOSTS cfg)) ok bad
             total_duration (job_end_time env))
          ([], out)
      else ([], out) in
    {| dispatched := future_to_host; success_details := ok; failed_hosts := bad;
       posted := sent; output := out ++ [lit "Backup job completed."];
       uncaught := None |}
    end.

(** ** Workers running side by side (lines 25, 163, 172-178, 233-235)

    The workers of one run as an interleaving of steps over the shared
    store.  A step is one access of a worker to the shared tree or to the
    repository: the write of the snapshot, the size read back at line 163,
    the commit, the retention pass.  [GIT_LOCK] is a [threading.Lock]: a flag
    that [with] sets on entry, waiting while it is set, and clears when the
    block is left, by its end or by an exception.  Line 235 submits a worker
    for an address that is not the empty string; a place whose address is
    empty never moves. *)

Module Locking.

(** Where a worker stands. *)
Inductive pc :=
| Fetching                  (* lines 102-160 *)
| Written (w : locals)      (* at line 163, the snapshot written *)
| Waiting (d : details)     (* at line 173, the lock not yet taken *)
| Committing (d : details)  (* line 175 *)
| Cleaning (d : details)    (* line 178 *)
| Done (r : future).        (* past the [with] block, or ended before it *)

(** Inside the [with GIT_LOCK] block: a commit or a retention pass is
    under way. *)
Definition in_region (p : pc) : bool :=
  match p with
  | Committing _ | Cleaning _ => true
  | _ => false
  end.

Record state := {
  locked : bool;
  pcs : nat -> pc;
  shared : store
}.

Definition set_pc (i : nat) (p : pc) (f : nat -> pc) : nat -> pc :=
  fun j => if j =? i then p else f j.

Definition init (st : store) : state :=
  {| locked := false; pcs := fun _ => Fetching; shared := st |}.

(** The lock is set exactly while one worker is inside the block. *)
Definition exclusive (s : state) : Prop :=
  (locked s = false /\ forall i, in_region (pcs s i) = false)
  \/ (locked s = true
      /\ exists i, in_region (pcs s i) = true
                   /\ forall j, in_region (pcs s j) = true -> j = i).

Section Workers.

Variable cfg : config.
Variable env : nat -> device_env.
Variable host : nat -> str.

Inductive step : state -> state -> Prop :=
| step_ended i s r st' :
    pcs s i = Fetching ->
    nonempty (host i) = true ->
    save_config (env i) cfg (host i) (shared s) = (inl r, st') ->
    step s {| locked := locked s; pcs := set_pc i (Done r) (pcs s); shared := st' |}
| step_saved i s w st' :
    pcs s i = Fetching ->
    nonempty (host i) = true ->
    save_config (env i) cfg (host i) (shared s) = (inr w, st') ->
    step s {| locked := locked s; pcs := set_pc i (Written w) (pcs s); shared := st' |}
| step_lost i s w r st' :
    pcs s i = Written w ->
    measure (env i) (host i) w (shared s) = (inl r, st') ->
    step s {| locked := locked s; pcs := set_pc i (Done r) (pcs s); shared := st' |}
| step_measured i s w d st' :
    pcs s i = Written w ->
    measure (env i) (host i) w (shared s) = (inr d, st') ->
    step s {| locked := locked s; pcs := set_pc i (Waiting d) (pcs s); shared := st' |}
| step_acquire i s d :
    pcs s i = Waiting d ->
    locked s = false ->
    step s {| locked := true; pcs := set_pc i (Committing d) (pcs s);
              shared := shared s |}
| step_commit i s d :
    pcs s i = Committing d ->
    step s {| locked := locked s; pcs := set_pc i (Cleaning d) (pcs s);
              shared := commit_to_git (git_add_error (env i)) (git_commit_error (env i))
                          (d_filename d) (d_hostname d) (shared s) |}
| step_cleanup i s d :
    pcs s i = Cleaning d ->
    step s {| locked := false;
              pcs := set_pc i (Done (Returned (Success d))) (pcs s);
              shared := cleanup_old_backups (matches (env i)) (remove_error (env i))
                          cfg (d_hostname d) (shared s) |}
| step_escape i s e :
    in_region (pcs s i) = true ->
    step s {| locked := false; pcs := set_pc i (Done (Raised e)) (pcs s);
              shared := shared s |}.

Inductive reachable (st0 : store) : state -> Prop :=
| reach_init : reachable st0 (init st0)
| reach_step s s' : reachable st0 s -> step s s' -> reachable st0 s'.

(** Some steps, one after the other. *)
Inductive steps : state -> state -> Prop :=
| steps_none s : steps s s
| steps_more s s' s'' : step s s' -> steps s' s'' -> steps s s''.

End Workers.

End Locking.

(** ** Sample data *)

(** No two paths are the same. *)
Fixpoint distinct (l : list str) : bool :=
  match l with
  | [] => true
  | x :: l' => negb (existsb (str_eqb x) l') && distinct l'
  end.

Module Sample.

Definition cfg (limit : Z) : config :=
  {| ROUTER_HOSTS := [lit "10.0.0.1"; lit "10.0.0.2"];
     PORT := lit "22";
     USERNAME := Some (lit "admin");
     PASSWORD := Some (lit "secret");
     BACKUP_DIR := lit "/backups";
     TELEGRAM_BOT_TOKEN := None;
     TELEGRAM_CHAT_ID := None;
     MAX_BACKUPS := limit |}.

Definition snapshot (name : string) (mtime : Z) : file :=
  {| f_path := lit "/backups/R1/" ++ lit name;
     f_mtime := mtime;
     f_data := lit "hostname R1" |}.

(** Three snapshots of the device R1, listed out of order. *)
Definition disk : store :=
  {| dirs := [lit "/backups"; lit "/backups/R1"];
     files := [snapshot "R1_20240103_000000.conf" 3;
               snapshot "R1_20240101_000000.conf" 1;
               snapshot "R1_20240102_000000.conf" 2];
     index := []; commits := []; stdout := [] |}.

Definition no_refusal : str -> option str := fun _ => None.

(** [n] earlier snapshots of R1, the [k]-th last modified at time [k]. *)
Definition earlier (n : nat) : store :=
  {| dirs := [lit "/backups"; lit "/backups/R1"];
     files := map (fun k =>
                     {| f_path := lit "/backups/R1/R1_old" ++ decimal k ++ lit ".conf";
                        f_mtime := Z.of_nat k;
                        f_data := lit "hostname R1" |})
                  (seq 1 n);
     index := []; commits := []; stdout := [] |}.

Definition empty_disk : store :=
  {| dirs := [lit "/backups"]; files := []; index := []; commits := [];
     stdout := [] |}.

Definition clock (s us : nat) : datetime :=
  {| year := 2024; month := 1; day := 1;
     hour := 0; minute := 0; second := s; microsecond := us |}.

(** A device that answers with [config_output]; the snapshot is named at
    [stamp]. *)
Definition device (config_output : str) (stamp : datetime) : device_env :=
  {| client_error := None;
     session := inr (config_output, []);
     makedirs_error := None;
     write_error := None;
     start_time := clock 0 0;
     stamp_time := stamp;
     end_time := clock 2 0;
     write_mtime := 100;
     git_add_error := None;
     git_commit_error := None;
     remove_error := no_refusal;
     matches := star_matches |}.

(** The same device on a day when Git and the file system both refuse. *)
Definition device_store_down (config_output : str) (stamp : datetime) : device_env :=
  {| client_error := None;
     session := inr (config_output, []);
     makedirs_error := None;
     write_error := None;
     start_time := clock 0 0;
     stamp_time := stamp;
     end_time := clock 2 0;
     write_mtime := 100;
     git_add_error := Some (lit "index.lock exists");
     git_commit_error := None;
     remove_error := fun _ => Some (lit "Permission denied");
     matches := star_matches |}.

(** The same device on a day when the disk fills up during the write:
    four characters reach the file. *)
Definition device_disk_full (config_output : str) (stamp : datetime) : device_env :=
  {| client_error := None;
     session := inr (config_output, []);
     makedirs_error := None;
     write_error :=
       Some (WriteFails (lit "[Errno 28] No space left on device")
               (firstn 4 config_output));
     start_time := clock 0 0;
     stamp_time := stamp;
     end_time := clock 2 0;
     write_mtime := 100;
     git_add_error := None;
     git_commit_error := None;
     remove_error := no_refusal;
     matches := star_matches |}.

(** A device that rejects the credentials. *)
Definition device_locked_out : device_env :=
  {| client_error := None;
     session := inl (AuthenticationException (lit "Authentication failed."));
     makedirs_error := None;
     write_error := None;
     start_time := clock 0 0;
     stamp_time := clock 1 0;
     end_time := clock 2 0;
     write_mtime := 100;
     git_add_error := None;
     git_commit_error := None;
     remove_error := no_refusal;
     matches := star_matches |}.

(** Three devices: the first and the third answer, the second rejects the
    credentials; the third finishes first. *)
Definition job : job_env :=
  {| backup_dir_error := None;
     repository := InvalidGitRepository;
     repo_init_error := None;
     future_result := fun i host =>
       fst (backup_router
              match i with
              | 0 => device (lit "hostname A") (clock 1 0)
              | 1 => device_locked_out
              | _ => device (lit "hostname C") (clock 1 0)
              end (cfg 10) host empty_disk);
     finish_time := fun i => match i with 0 => 5%Z | 1 => 4%Z | _ => 3%Z end;
     post_error := None;
     job_start_time := clock 0 0;
     job_end_time := clock 3 0;
     build_message := fun _ _ _ _ _ => lit "summary" |}.

(** The same run on a host where the backup directory cannot be made. *)
Definition job_no_tree : job_env :=
  {| backup_dir_error := Some (lit "[Errno 13] Permission denied: '/backups'");
     repository := InvalidGitRepository;
     repo_init_error := None;
     future_result := future_result job;
     finish_time := finish_time job;
     post_error := None;
     job_start_time := clock 0 0;
     job_end_time := clock 3 0;
     build_message := fun _ _ _ _ _ => lit "summary" |}.

(** The same run where [Repo.init] fails on the first start. *)
Definition job_no_repo : job_env :=
  {| backup_dir_error := None;
     repository := InvalidGitRepository;
     repo_init_error := Some (lit "Cmd('git') failed due to: exit code(128)");
     future_result := future_result job;
     finish_time := finish_time job;
     post_error := None;
     job_start_time := clock 0 0;
     job_end_time := clock 3 0;
     build_message := fun _ _ _ _ _ => lit "summary" |}.

(** The workers and addresses of that run, for the interleaving model. *)
Definition workers (i : nat) : device_env :=
  match i with
  | 0 => device (lit "hostname A") (clock 1 0)
  | 1 => device (lit "hostname C") (clock 1 0)
  | _ => device_locked_out
  end.

(** Two devices that carry the same name and answer within the same
    second; the configuration of the second is the longer one. *)
Definition twins (i : nat) : device_env :=
  match i with
  | 0 => device (lit "hostname R1") (clock 1 100)
  | _ => device (lit "hostname R1 ! second site") (clock 1 900)
  end.

Definition hosts (i : nat) : str :=
  match i with
  | 0 => lit "10.0.0.1"
  | 1 => lit "10.0.0.3"
  | _ => lit "10.0.0.2"
  end.

Definition fleet (token chat : option str) : config :=
  {| ROUTER_HOSTS := load_router_hosts (Some (lit "10.0.0.1,10.0.0.2,,10.0.0.3"));
     PORT := lit "22";
     USERNAME := Some (lit "admin");
     PASSWORD := Some (lit "secret");
     BACKUP_DIR := lit "/backups";
     TELEGRAM_BOT_TOKEN := token;
     TELEGRAM_CHAT_ID := chat;
     MAX_BACKUPS := 10 |}.

(** The same fleet with the variables given: nothing to back up when
    [ROUTER_HOSTS] is unset, no credentials when the user name is unset. *)
Definition misconfigured (hosts user : option str) : config :=
  {| ROUTER_HOSTS := load_router_hosts hosts;
     PORT := lit "22";
     USERNAME := user;
     PASSWORD := Some (lit "secret");
     BACKUP_DIR := lit "/backups";
     TELEGRAM_BOT_TOKEN := Some (lit "123:abc");
     TELEGRAM_CHAT_ID := Some (lit "42");
     MAX_BACKUPS := 10 |}.

End Sample.

(** ** Further definitions *)

(** [sep.join(parts)] for a one-character separator. *)
Fixpoint join (sep : ascii) (parts : list str) : str :=
  match parts with
  | [] => []
  | p :: rest =>
      match rest with
      | [] => p
      | _ :: _ => p ++ sep :: join sep rest
      end
  end.

(** Line 231: the size of the thread pool. *)
Definition max_workers (cfg : config) : nat :=
  Nat.min (List.length (ROUTER_HOSTS cfg)) 10.

(** The same run with another fate of the HTTP request. *)
Definition with_post_error (e : option str) (env : job_env) : job_env :=
  {| backup_dir_error := backup_dir_error env;
     repository := repository env;
     repo_init_error := repo_init_error env;
     future_result := future_result env;
     finish_time := finish_time env;
     post_error := e;
     job_start_time := job_start_time env;
     job_end_time := job_end_time env;
     build_message := build_message env |}.

(** A run whose futures are calls of [backup_router]: the [i]-th worker
    talks to the device [devs i] and finds the store [sts i]. *)
Definition pool (cfg : config) (devs : nat -> device_env)
    (sts : nat -> store) (env : job_env) : job_env :=
  {| backup_dir_error := backup_dir_error env;
     repository := repository env;
     repo_init_error := repo_init_error env;
     future_result := fun i host => fst (backup_router (devs i) cfg host (sts i));
     finish_time := finish_time env;
     post_error := post_error env;
     job_start_time := job_start_time env;
     job_end_time := job_end_time env;
     build_message := build_message env |}.




(** A clock reading whose fields are in the ranges of [datetime]. *)
Definition valid_datetime (t : datetime) : Prop :=
  (Z.of_nat (year t) <= 9999)%Z /\ month t <= 12 /\ day t <= 31
  /\ hour t <= 23 /\ minute t <= 59 /\ second t <= 59.

(** The instant of a reading, to the second. *)
Definition to_second (t : datetime) : list nat :=
  [year t; month t; day t; hour t; minute t; second t].

(* ================================================================== *)
(** * Part II: properties *)
(* ================================================================== *)

(** ** Strings *)

Section StringFacts.

Lemma str_eqb_eq (a b : str) : str_eqb a b = true <-> a = b.
Proof.
  revert b; induction a as [|x a IH]; intros [|y b]; simpl; split;
    try congruence; try reflexivity.
  - intros H. apply andb_prop in H as [Hx Hab].
    apply Ascii.eqb_eq in Hx. apply IH in Hab. congruence.
  - intros H. injection H as -> ->.
    rewrite Ascii.eqb_refl. simpl. now apply IH.
Qed.

Lemma str_eqb_refl (a : str) : str_eqb a a = true.
Proof. now apply str_eqb_eq. Qed.

Lemma str_eqb_neq (a b : str) : str_eqb a b = false <-> a <> b.
Proof.
  split.
  - intros H E. apply str_eqb_eq in E. congruence.
  - intros H. destruct (str_eqb a b) eqn:E; [|reflexivity].
    apply str_eqb_eq in E. contradiction.
Qed.

Lemma startswith_app (p s : str) : startswith p (p ++ s) = true.
Proof.
  induction p as [|x p IH]; simpl; [reflexivity|].
  now rewrite Ascii.eqb_refl.
Qed.

Lemma contains_prefix (sub s : str) :
  startswith sub s = true -> contains sub s = true.
Proof. intros H. destruct s; simpl; now rewrite H. Qed.

Lemma contains_middle (sub a b : str) : contains sub (a ++ sub ++ b) = true.
Proof.
  induction a as [|x a IH].
  - change ([] ++ sub ++ b) with (sub ++ b).
    apply contains_prefix, startswith_app.
  - simpl. rewrite IH. apply orb_true_r.
Qed.

Lemma lstrip_spaces (ws s : str) :
  Forall (fun c => isspace c = true) ws -> lstrip (ws ++ s) = lstrip s.
Proof.
  induction 1 as [|c ws Hc _ IH]; simpl; [reflexivity|].
  now rewrite Hc.
Qed.

Lemma lstrip_keeps_last (x : str) (c : ascii) :
  isspace c = false -> exists y, lstrip (x ++ [c]) = y ++ [c].
Proof.
  intros Hc. induction x as [|d x IH]; simpl.
  - rewrite Hc. now exists [].
  - destruct (isspace d).
    + exact IH.
    + now exists (d :: x).
Qed.

(** Stripping a text that begins, after blanks, with a visible character
    leaves that character in front. *)
Lemma strip_head (ws r : str) (c : ascii) :
  Forall (fun c => isspace c = true) ws -> isspace c = false ->
  exists y, strip (ws ++ c :: r) = c :: y.
Proof.
  intros Hws Hc. unfold strip, rstrip.
  rewrite (lstrip_spaces ws (c :: r) Hws). simpl lstrip at 2. rewrite Hc.
  simpl rev.
  destruct (lstrip_keeps_last (rev r) c Hc) as [y Hy].
  rewrite Hy, rev_app_distr. simpl. now exists (rev y).
Qed.

(** The first token of a line: blanks, then the token, then the rest. *)
Lemma py_split_first (line t : str) (ts : list str) :
  py_split line = t :: ts ->
  exists ws rest,
    line = ws ++ t ++ rest
    /\ Forall (fun c => isspace c = true) ws
    /\ exists c t', t = c :: t' /\ isspace c = false.
Proof.
  revert t ts. induction line as [|c s IH]; intros t ts H; simpl in H.
  - discriminate.
  - destruct (isspace c) eqn:Hc.
    + destruct (IH _ _ H) as (ws & rest & -> & Hws & Ht).
      exists (c :: ws), rest. repeat split; auto.
    + destruct s as [|d s'].
      * injection H as <- <-. exists [], []. repeat split; eauto.
      * destruct (isspace d) eqn:Hd.
        -- injection H as <- <-. exists [], (d :: s'). repeat split; eauto.
        -- destruct (py_split (d :: s')) as [|t1 ts1] eqn:E.
           ++ injection H as <- <-. exists [], (d :: s'). repeat split; eauto.
           ++ injection H as <- <-.
              destruct (IH _ _ eq_refl) as (ws & rest & Hs & Hws & c1 & t1' & -> & Hc1).
              destruct ws as [|w ws].
              ** exists [], rest. simpl in *. rewrite Hs. repeat split; eauto.
              ** simpl in Hs. injection Hs as <- _.
                 inversion Hws; subst. congruence.
Qed.

Example py_split_ex :
  py_split (lit "  hostname   Router-42 ") = [lit "hostname"; lit "Router-42"].
Proof. reflexivity. Qed.

Example split_on_ex :
  split_on "," (lit "a,,b,") = [lit "a"; []; lit "b"; []].
Proof. reflexivity. Qed.

Example strip_ex : strip (lit "  a b  ") = lit "a b".
Proof. reflexivity. Qed.

Example path_join_ex :
  path_join (lit "/backups") (lit "R1") = lit "/backups/R1"
  /\ path_join (lit "/backups/") (lit "R1") = lit "/backups/R1"
  /\ path_join (lit "/backups") (lit "/etc") = lit "/etc".
Proof. repeat split. Qed.

Example slice_to_ex :
  slice_to (-2) [1; 2; 3; 4; 5] = [1; 2; 3]
  /\ slice_to (-0) [1; 2; 3] = []
  /\ slice_to (-7) [1; 2; 3] = []
  /\ slice_to 2 [1; 2; 3] = [1; 2].
Proof. repeat split. Qed.

Lemma flat_map_flat_map {A B C : Type} (f : A -> list B) (g : B -> list C)
    (l : list A) :
  flat_map g (flat_map f l) = flat_map (fun x => flat_map g (f x)) l.
Proof.
  induction l as [|x l IH]; simpl; [reflexivity|].
  now rewrite flat_map_app, IH.
Qed.

End StringFacts.

(** ** Sorting and slicing *)

Section SequenceFacts.

Context {A : Type}.
Variable key : A -> Z.

Lemma insert_by_perm (x : A) (l : list A) :
  Permutation (insert_by key x l) (x :: l).
Proof.
  induction l as [|y l IH]; simpl; [reflexivity|].
  destruct (key x <=? key y)%Z; [reflexivity|].
  rewrite IH. apply perm_swap.
Qed.

Lemma sort_by_perm (l : list A) : Permutation (sort_by key l) l.
Proof.
  induction l as [|x l IH]; simpl; [reflexivity|].
  rewrite insert_by_perm. now constructor.
Qed.

Lemma sort_by_length (l : list A) : List.length (sort_by key l) = List.length l.
Proof. apply Permutation_length, sort_by_perm. Qed.

Lemma insert_by_sorted (x : A) (l : list A) :
  StronglySorted (key_le key) l -> StronglySorted (key_le key) (insert_by key x l).
Proof.
  induction 1 as [|y l Hl IH Hy]; simpl.
  - repeat constructor.
  - destruct (key x <=? key y)%Z eqn:E.
    + apply Z.leb_le in E. constructor; [now constructor|].
      constructor; [exact E|].
      eapply Forall_impl; [|exact Hy]. unfold key_le. intros; lia.
    + apply Z.leb_gt in E. constructor; [exact IH|].
      eapply Permutation_Forall; [symmetry; apply insert_by_perm|].
      constructor; [unfold key_le; lia|exact Hy].
Qed.

Lemma sort_by_sorted (l : list A) : StronglySorted (key_le key) (sort_by key l).
Proof.
  induction l as [|x l IH]; simpl; [constructor|].
  now apply insert_by_sorted.
Qed.





Lemma slice_to_back (m : Z) (l : list A) :
  (0 < m)%Z ->
  slice_to (- m) l = firstn (List.length l - Z.to_nat m) l.
Proof.
  intros Hm. unfold slice_to.
  destruct (- m <? 0)%Z eqn:E; [|apply Z.ltb_ge in E; lia].
  f_equal. lia.
Qed.


End SequenceFacts.

(** ** Lists *)

Section ListFacts.

Context {A : Type}.

Lemma filter_all (p : A -> bool) (l : list A) :
  (forall x, In x l -> p x = true) -> filter p l = l.
Proof.
  induction l as [|x l IH]; simpl; intros H; [reflexivity|].
  rewrite (H x) by now left. f_equal. apply IH. intros; apply H. now right.
Qed.


Lemma filter_filter (p q : A -> bool) (l : list A) :
  filter p (filter q l) = filter (fun x => q x && p x) l.
Proof.
  induction l as [|x l IH]; simpl; [reflexivity|].
  destruct (q x); simpl; [destruct (p x)|]; now rewrite IH.
Qed.



Lemma NoDup_app_disjoint (l1 l2 : list A) (a : A) :
  NoDup (l1 ++ l2) -> In a l1 -> In a l2 -> False.
Proof.
  induction l1 as [|x l1 IH]; simpl; intros H H1 H2; [contradiction|].
  inversion H as [|? ? Hx Hl]; subst. destruct H1 as [->|H1].
  - apply Hx, in_or_app. now right.
  - now apply IH.
Qed.

End ListFacts.

(** ** Retention *)

Section DiskFacts.

Lemma has_path_In (p : str) (fs : list file) :
  has_path p fs = true <-> In p (map f_path fs).
Proof.
  unfold has_path. rewrite existsb_exists, in_map_iff.
  split; intros (f & H1 & H2); exists f.
  - apply str_eqb_eq in H2. tauto.
  - split; [tauto|]. apply str_eqb_eq. tauto.
Qed.

Lemma survives_spec (ps : list str) (f : file) :
  survives ps f = true <-> ~ In (f_path f) ps.
Proof.
  unfold survives. rewrite negb_true_iff.
  destruct (existsb (str_eqb (f_path f)) ps) eqn:E.
  - apply existsb_exists in E as (x & Hx & E). apply str_eqb_eq in E.
    split; [discriminate|]. intros H. exfalso. apply H. now rewrite E.
  - split; [|reflexivity]. intros _ Hin.
    assert (existsb (str_eqb (f_path f)) ps = true); [|congruence].
    apply existsb_exists. exists (f_path f). split; [exact Hin|apply str_eqb_refl].
Qed.

(** Listing part of a disk with distinct paths gives distinct paths. *)
Lemma distinct_paths_filter (keep : file -> bool) (fs : list file) :
  NoDup (map f_path fs) -> NoDup (map f_path (filter keep fs)).
Proof.
  intros Hfs. induction fs as [|g fs IH]; cbn [filter map] in *; [exact Hfs|].
  apply NoDup_cons_iff in Hfs as [Hg Hfs].
  destruct (keep g); cbn [map]; [|exact (IH Hfs)].
  apply NoDup_cons; [|exact (IH Hfs)].
  contradict Hg. apply in_map_iff in Hg as (h & Eh & Hh).
  apply filter_In in Hh as [Hh _]. rewrite <- Eh. now apply in_map.
Qed.

Lemma survives_nil (f : file) : survives [] f = true.
Proof. reflexivity. Qed.

Lemma survives_cons (p : str) (ps : list str) (f : file) :
  survives (p :: ps) f = negb (str_eqb (f_path f) p) && survives ps f.
Proof. unfold survives. simpl. apply negb_orb. Qed.


End DiskFacts.

Section DeleteLoop.

Variable remove_error : str -> option str.

(** The loop of lines 90-92 removes a front part of its list and stops at
    the first path the operating system refuses. *)
Lemma delete_loop_spec (ps : list str) : forall st,
  NoDup ps ->
  (forall p, In p ps -> has_path p (files st) = true) ->
  exists k,
    files (fst (delete_loop remove_error ps st))
      = filter (survives (firstn k ps)) (files st)
    /\ match snd (delete_loop remove_error ps st) with
       | None => k = List.length ps
       | Some e => exists p, nth_error ps k = Some p /\ remove_error p = Some e
       end.
Proof.
  induction ps as [|p ps IH]; intros st Hnd Hin; simpl.
  - exists 0. split; [|reflexivity].
    symmetry. apply filter_all. intros; apply survives_nil.
  - unfold os_remove. destruct (remove_error p) as [e|] eqn:Ep.
    + exists 0. simpl. split.
      * symmetry. apply filter_all. intros; apply survives_nil.
      * now exists p.
    + rewrite (Hin p) by now left.
      inversion Hnd as [|? ? Hp Hps]; subst.
      set (fs := filter (fun f => negb (str_eqb (f_path f) p)) (files st)).
      set (st1 := print _ (set_files fs st)).
      destruct (IH st1 Hps) as (k & Hk & Hr).
      { intros q Hq. simpl. apply has_path_In.
        specialize (Hin q (or_intror Hq)). apply has_path_In in Hin.
        apply in_map_iff in Hin as (f & Hf & Hin).
        apply in_map_iff. exists f. split; [exact Hf|].
        apply filter_In. split; [exact Hin|].
        apply negb_true_iff, str_eqb_neq. congruence. }
      exists (S k). split.
      2:{ destruct (snd (delete_loop remove_error ps st1)); simpl;
          [exact Hr|now f_equal]. }
      rewrite Hk. simpl files. unfold fs. rewrite filter_filter.
      apply filter_ext. intros f. simpl firstn. now rewrite survives_cons.
Qed.

Lemma delete_loop_rest (ps : list str) : forall st,
  dirs (fst (delete_loop remove_error ps st)) = dirs st
  /\ index (fst (delete_loop remove_error ps st)) = index st
  /\ commits (fst (delete_loop remove_error ps st)) = commits st.
Proof.
  induction ps as [|p ps IH]; intros st; cbn [delete_loop]; [auto|].
  destruct (os_remove remove_error p (files st)) as [e|fs]; [auto|].
  exact (IH (print (lit "Deleted old backup: " ++ p) (set_files fs st))).
Qed.

End DeleteLoop.


Section RetentionFacts.

Variable matches : str -> str -> bool.
Variable remove_error : str -> option str.
Variable cfg : config.
Variable hostname : str.

Local Abbreviation snaps := (snapshots matches cfg hostname).
Local Abbreviation found st := (sort_by f_mtime (snaps st)).
Local Abbreviation cleanup := (cleanup_old_backups matches remove_error cfg hostname).
Local Abbreviation dir := (path_join (BACKUP_DIR cfg) hostname).
Local Abbreviation limit := (MAX_BACKUPS cfg).

Lemma cleanup_unfold (st : store) :
  cleanup st =
  if negb (path_exists dir st) then st
  else if (Z.of_nat (List.length (found st)) >? limit)%Z then
    match delete_loop remove_error
            (map f_path (slice_to (- limit) (found st))) st with
    | (st', None) => st'
    | (st', Some e) =>
        print (lit "Cleanup failed for " ++ hostname ++ lit ": " ++ e) st'
    end
  else st.
Proof. reflexivity. Qed.

(** Retention touches nothing but the files and standard output. *)
Lemma cleanup_rest (st : store) :
  dirs (cleanup st) = dirs st
  /\ index (cleanup st) = index st
  /\ commits (cleanup st) = commits st.
Proof.
  rewrite cleanup_unfold.
  destruct (negb (path_exists dir st)); [auto|].
  destruct (_ >? _)%Z; [|auto].
  pose proof (delete_loop_rest remove_error
                (map f_path (slice_to (- limit) (found st))) st) as H.
  destruct (delete_loop _ _ st) as [st' [e|]]; exact H.
Qed.


Lemma found_nodup (st : store) :
  NoDup (map f_path (files st)) -> NoDup (map f_path (found st)).
Proof.
  intros H. eapply Permutation_NoDup.
  - apply Permutation_map. symmetry. apply sort_by_perm.
  - now apply distinct_paths_filter.
Qed.

Lemma found_on_disk (st : store) (f : file) :
  In f (found st) -> has_path (f_path f) (files st) = true.
Proof.
  intros H. apply has_path_In, in_map.
  eapply Permutation_in in H; [|apply sort_by_perm].
  unfold snapshots, glob in H. apply filter_In in H. tauto.
Qed.


Lemma in_firstn {B : Type} (n : nat) (l : list B) (x : B) :
  In x (firstn n l) -> In x l.
Proof.
  intros H. rewrite <- (firstn_skipn n l). apply in_or_app. now left.
Qed.

Lemma nodup_firstn {B : Type} (n : nat) (l : list B) :
  NoDup l -> NoDup (firstn n l).
Proof.
  intros H. rewrite <- (firstn_skipn n l) in H.
  now apply NoDup_app_remove_r in H.
Qed.

(** What a pass that has something to delete does: it removes the oldest
    files one by one, all [count - limit] of them or up to the first one the
    operating system refuses to remove. *)
Lemma cleanup_deletes (st : store) :
  (1 <= limit)%Z ->
  path_exists dir st = true ->
  (Z.of_nat (List.length (found st)) > limit)%Z ->
  NoDup (map f_path (files st)) ->
  exists k,
    files (cleanup st)
      = filter (survives (map f_path (firstn k (found st)))) (files st)
    /\ (k = List.length (found st) - Z.to_nat limit
        \/ (k < List.length (found st) - Z.to_nat limit
            /\ exists f e, nth_error (found st) k = Some f
                           /\ remove_error (f_path f) = Some e)).
Proof.
  intros Hl Hd Hn Hnd. rewrite cleanup_unfold, Hd. simpl negb. cbv iota.
  replace (_ >? _)%Z with true by (symmetry; apply Z.gtb_lt; lia).
  rewrite slice_to_back by lia.
  set (j := List.length (found st) - Z.to_nat limit).
  destruct (delete_loop_spec remove_error (map f_path (firstn j (found st))) st)
    as (k & Hk & Hr).
  { rewrite <- firstn_map. apply nodup_firstn. now apply found_nodup. }
  { intros p Hp. apply in_map_iff in Hp as (f & <- & Hf).
    apply found_on_disk. eapply in_firstn; eauto. }
  assert (Hj : j <= List.length (found st)) by (unfold j; lia).
  destruct (delete_loop _ _ st) as [st' [e|]]; simpl in Hk, Hr.
  - destruct Hr as (p & Hp & He).
    assert (Hkj : k < j).
    { assert (Hb : k < List.length (map f_path (firstn j (found st)))).
      { apply nth_error_Some. congruence. }
      rewrite length_map, length_firstn in Hb. lia. }
    exists k. split.
    + simpl files. rewrite Hk, firstn_map, firstn_firstn.
      now rewrite Nat.min_l by lia.
    + right. split; [exact Hkj|].
      rewrite nth_error_map, nth_error_firstn in Hp.
      replace (k <? j) with true in Hp by (symmetry; apply Nat.ltb_lt; lia).
      destruct (nth_error (found st) k) as [f|]; [|discriminate].
      simpl in Hp. injection Hp as <-. now exists f, e.
  - exists j. split; [|now left].
    rewrite Hk, Hr, length_map, firstn_all2; [reflexivity|].
    rewrite length_map. lia.
Qed.


Lemma sorted_app_le (a b : list file) :
  StronglySorted (key_le f_mtime) (a ++ b) ->
  forall x y, In x a -> In y b -> (f_mtime x <= f_mtime y)%Z.
Proof.
  induction a as [|z a IH]; simpl; intros H x y Hx Hy; [contradiction|].
  inversion H as [|? ? Hs Hall]; subst. destruct Hx as [->|Hx].
  - rewrite Forall_forall in Hall. apply Hall, in_or_app. now right.
  - now apply IH.
Qed.


Lemma cleanup_within_limit (st : store) :
  (Z.of_nat (List.length (snaps st)) <= limit)%Z -> cleanup st = st.
Proof.
  intros H. rewrite cleanup_unfold.
  destruct (negb (path_exists dir st)); [reflexivity|].
  rewrite sort_by_length.
  rewrite Z.gtb_ltb.
  now replace (_ <? _)%Z with false by (symmetry; apply Z.ltb_ge; lia).
Qed.




End RetentionFacts.

(** ** Identity extraction *)

Module ConfigParserFacts.
Import ConfigParser.

(** The test of line 141 is [names_host]. *)
Lemma inner_test (line : str) :
  (2 <=? List.length (py_split line))
  && str_eqb (lower (nth 0 (py_split line) [])) keyword
  = names_host line.
Proof.
  unfold names_host. destruct (py_split line) as [|t [|u ts]]; reflexivity.
Qed.

(** A line that names the host passes the test of line 139 as well. *)
Lemma outer_test (line : str) :
  names_host line = true ->
  contains keyword (lower line)
  && negb (startswith (lit "!") (strip line))
  && negb (startswith (lit "#") (strip line)) = true.
Proof.
  unfold names_host. intros H.
  destruct (py_split line) as [|t [|u ts]] eqn:E; try discriminate.
  apply str_eqb_eq in H.
  destruct (py_split_first _ _ _ E) as (ws & rest & -> & Hws & c & t' & -> & Hc).
  destruct (strip_head ws (t' ++ rest) c Hws Hc) as [y Hy].
  simpl app. rewrite Hy.
  assert (Hl : lower (ws ++ c :: t' ++ rest)
               = lower ws ++ keyword ++ lower rest).
  { rewrite <- H. unfold lower.
    change (c :: t' ++ rest) with ((c :: t') ++ rest).
    now rewrite !map_app. }
  rewrite Hl, contains_middle.
  assert (Hh : lower_char c = "h"%char).
  { unfold lower, keyword, lit in H. simpl in H. congruence. }
  assert (Hs : forall x, startswith [x] (c :: y) = Ascii.eqb x c).
  { intros x. cbn [startswith]. apply andb_true_r. }
  change (lit "!") with ["!"%char]. change (lit "#") with ["#"%char].
  rewrite !Hs.
  destruct (Ascii.eqb "!" c) eqn:E1.
  { apply Ascii.eqb_eq in E1. subst c. discriminate. }
  destruct (Ascii.eqb "#" c) eqn:E2.
  { apply Ascii.eqb_eq in E2. subst c. discriminate. }
  reflexivity.
Qed.

Lemma scan_lines_find (dflt : str) (lines : list str) :
  scan_lines dflt lines =
  match find names_host lines with
  | Some line => nth 1 (py_split line) []
  | None => dflt
  end.
Proof.
  induction lines as [|line rest IH]; cbn [scan_lines find]; [reflexivity|].
  rewrite inner_test. destruct (names_host line) eqn:E.
  - now rewrite (outer_test _ E).
  - rewrite IH. now destruct (_ && _ && _).
Qed.

(** A comment line never names the host. *)
Lemma comment_never_matches (line : str) :
  startswith (lit "!") (strip line) || startswith (lit "#") (strip line) = true ->
  names_host line = false.
Proof.
  intros H. destruct (names_host line) eqn:E; [|reflexivity].
  apply outer_test in E.
  apply andb_prop in E as [E E2]. apply andb_prop in E as [_ E1].
  apply negb_true_iff in E1, E2. rewrite E1, E2 in H. discriminate.
Qed.

(** Line 146 as one pass over the characters. *)
Lemma sanitize_flat_map (s : str) : sanitize s = flat_map sanitize_char s.
Proof.
  unfold sanitize, replace.
  repeat rewrite flat_map_flat_map.
  apply flat_map_ext. intros c.
  destruct c as [[] [] [] [] [] [] [] []]; reflexivity.
Qed.

Lemma sanitize_char_clean (c : ascii) :
  Forall (fun x => reserved x = false) (sanitize_char c).
Proof.
  destruct c as [[] [] [] [] [] [] [] []]; vm_compute;
    repeat constructor.
Qed.

End ConfigParserFacts.

(** C3, as the code has it.  For every address and every configuration
    text, identity extraction returns the second token of the first line
    that has at least two whitespace-separated tokens and whose first token
    is [hostname] in any letter case; when there is no such line it returns
    the connection address without its surrounding whitespace.  A line whose
    stripped form begins with [!] or [#] is never such a line. *)
Theorem extract_hostname_first_match (hostname config_output : str) :
  ConfigParser.extract_hostname hostname config_output =
  match find ConfigParser.names_host (split_on nl config_output) with
  | Some line => nth 1 (py_split line) []
  | None => strip hostname
  end
  /\ forall line,
       startswith (lit "!") (strip line) || startswith (lit "#") (strip line) = true ->
       ConfigParser.names_host line = false.
Proof.
  split.
  - apply ConfigParserFacts.scan_lines_find.
  - apply ConfigParserFacts.comment_never_matches.
Qed.

(** C3, as stated, fails.  A line that holds the keyword alone has the
    keyword as its first token, yet the scan passes over it and takes the
    name from a later line; and without any matching line the result is the
    address, which differs from device to device, not one fixed value. *)
Lemma extract_hostname_not_as_stated :
  ~ (exists sentinel, ConfigParser.extraction_as_stated sentinel)
  /\ ConfigParser.extract_hostname (lit "10.0.0.1")
       (lit "hostname" ++ [nl] ++ lit "hostname R1") = lit "R1"
  /\ ConfigParser.extract_hostname (lit " 10.0.0.1 ") (lit "! hostname R1")
     = lit "10.0.0.1"
  /\ ConfigParser.extract_hostname (lit "10.0.0.2") (lit "! hostname R1")
     = lit "10.0.0.2".
Proof.
  split; [|repeat split; reflexivity].
  intros [sentinel H].
  specialize (H (lit "10.0.0.1") (lit "hostname" ++ [nl] ++ lit "hostname R1")).
  vm_compute in H. discriminate.
Qed.

(** C9, as stated, fails.  Line 146 is no replacement in place for any
    class of characters and any substitute, because a semicolon leaves
    nothing behind; and shell metacharacters outside its list, the ampersand
    for one, pass through. *)
Lemma sanitize_not_as_stated :
  ~ (exists special substitute,
       ConfigParser.replaces_in_place special substitute)
  /\ ConfigParser.sanitize (lit "a;b") = lit "ab"
  /\ ConfigParser.shell_metacharacter "&" = true
  /\ ConfigParser.sanitize (lit "a&b") = lit "a&b".
Proof.
  split; [|repeat split].
  intros (special & substitute & H).
  specialize (H (lit ";")). apply (f_equal (@List.length ascii)) in H.
  discriminate.
Qed.

(** C9, as the code has it.  For every raw identity, line 146 deletes each
    semicolon and puts an underscore in place of each slash, backslash,
    colon, star, question mark, double quote, angle bracket and vertical bar,
    leaving every other character where it is; the result holds none of
    these ten characters, and [Core/Router:1] becomes [Core_Router_1]. *)
Theorem sanitize_safe (device_hostname : str) :
  ConfigParser.sanitize device_hostname
  = flat_map ConfigParser.sanitize_char device_hostname
  /\ Forall (fun c => ConfigParser.reserved c = false)
       (ConfigParser.sanitize device_hostname)
  /\ ConfigParser.sanitize (lit "Core/Router:1") = lit "Core_Router_1".
Proof.
  split; [apply ConfigParserFacts.sanitize_flat_map|].
  split; [|reflexivity].
  rewrite ConfigParserFacts.sanitize_flat_map.
  apply Forall_flat_map, Forall_forall. intros c _.
  apply ConfigParserFacts.sanitize_char_clean.
Qed.

(** ** Retention: limits and repeated passes *)

Lemma distinct_NoDup (l : list str) : distinct l = true -> NoDup l.
Proof.
  induction l as [|x l IH]; simpl; intros H; constructor.
  - apply andb_prop in H as [H _]. apply negb_true_iff in H.
    intros Hin. assert (existsb (str_eqb x) l = true); [|congruence].
    apply existsb_exists. exists x. split; [exact Hin|apply str_eqb_refl].
  - apply andb_prop in H as [_ H]. now apply IH.
Qed.

Example cleanup_limit_two :
  map f_mtime
    (files (cleanup_old_backups star_matches Sample.no_refusal (Sample.cfg 2)
              (lit "R1") Sample.disk))
  = [3; 2]%Z.
Proof. reflexivity. Qed.

(** C2 at a limit of zero.  Three snapshots of one device are on disk and
    the retention limit is 0: the pass leaves all three, where the minimum of
    the count and the limit is 0. *)
Theorem cleanup_limit_zero_keeps_all :
  let st :=
    cleanup_old_backups star_matches Sample.no_refusal (Sample.cfg 0)
      (lit "R1") Sample.disk in
  List.length (snapshots star_matches (Sample.cfg 0) (lit "R1") Sample.disk) = 3
  /\ List.length (snapshots star_matches (Sample.cfg 0) (lit "R1") st) = 3
  /\ Z.min 3 (MAX_BACKUPS (Sample.cfg 0)) = 0%Z.
Proof. repeat split. Qed.




(** ** One device *)

Section WorkerFacts.

Lemma write_file_In (p data : str) (mtime : Z) (fs : list file) :
  In {| f_path := p; f_mtime := mtime; f_data := data |}
     (write_file p data mtime fs).
Proof.
  unfold write_file. destruct (has_path p fs) eqn:E.
  - apply has_path_In, in_map_iff in E as (g & Hg & Hin).
    apply in_map_iff. exists g. split; [|exact Hin].
    now rewrite Hg, str_eqb_refl.
  - apply in_or_app. right. now left.
Qed.

(** Writing a file takes no path away. *)
Lemma write_file_keeps (p q data : str) (mtime : Z) (fs : list file) :
  has_path p fs = true -> has_path p (write_file q data mtime fs) = true.
Proof.
  rewrite !has_path_In. unfold write_file. destruct (has_path q fs).
  - rewrite map_map. intros H. apply in_map_iff in H as (g & Hg & Hin).
    apply in_map_iff. exists g. split; [|exact Hin].
    destruct (str_eqb (f_path g) q) eqn:E; [|exact Hg].
    apply str_eqb_eq in E. simpl. congruence.
  - rewrite map_app. intros H. apply in_or_app. now left.
Qed.

(** The size read back right after a write is the size of what was
    written. *)
Lemma getsize_write_file (p data : str) (mtime : Z) (fs : list file) :
  getsize p (write_file p data mtime fs) = Some (utf8_size data).
Proof.
  unfold getsize, write_file.
  set (f := {| f_path := p; f_mtime := mtime; f_data := data |}).
  assert (Hf : str_eqb (f_path f) p = true) by apply str_eqb_refl.
  destruct (has_path p fs) eqn:E.
  - replace (find _ _) with (Some f); [reflexivity|].
    symmetry. unfold has_path in E.
    induction fs as [|x fs IH]; cbn [existsb map find] in *; [discriminate|].
    destruct (str_eqb (f_path x) p) eqn:Ex.
    + now rewrite Hf.
    + rewrite Ex. apply IH. exact E.
  - replace (find _ _) with (Some f); [reflexivity|].
    symmetry. unfold has_path in E.
    induction fs as [|x fs IH]; cbn [existsb app find] in *; [now rewrite Hf|].
    apply orb_false_elim in E as [Ex E]. rewrite Ex. now apply IH.
Qed.

(** Lines 102-160 add to the working tree and to standard output; they
    stage nothing, commit nothing and take no path away. *)
Lemma save_config_frame (env : device_env) (cfg : config)
    (hostname : str) (st : store) :
  let st' := snd (save_config env cfg hostname st) in
  index st' = index st
  /\ commits st' = commits st
  /\ forall p, has_path p (files st) = true -> has_path p (files st') = true.
Proof.
  unfold save_config.
  destruct (client_error env); [simpl; auto|].
  destruct (session env) as [x|[config_output error_output]].
  { destruct x; simpl; auto. }
  destruct (makedirs_error env); [destruct (nonempty error_output); simpl; auto|].
  destruct (write_error env) as [[e|e on_disk]|].
  - unfold makedirs.
    destruct (nonempty error_output); simpl;
      destruct (existsb _ _); simpl; auto.
  - unfold makedirs.
    destruct (nonempty error_output); simpl;
      destruct (existsb _ _); simpl; repeat split; intros p Hp;
      now apply write_file_keeps.
  - unfold makedirs.
    destruct (nonempty error_output); simpl;
      destruct (existsb _ _); simpl; repeat split; intros p Hp;
      now apply write_file_keeps.
Qed.

(** Lines 163-170 read the tree and print; they change nothing else. *)
Lemma measure_frame (env : device_env) (hostname : str) (w : locals)
    (st : store) :
  let st' := snd (measure env hostname w st) in
  files st' = files st /\ dirs st' = dirs st
  /\ index st' = index st /\ commits st' = commits st.
Proof.
  unfold measure. destruct (getsize _ _); simpl; auto.
Qed.

(** The part of a worker before the [with] statement adds to the working
    tree and to standard output; it stages nothing, commits nothing and
    deletes nothing. *)
Lemma fetch_and_save_frame (env : device_env) (cfg : config)
    (hostname : str) (st : store) :
  let st' := snd (fetch_and_save env cfg hostname st) in
  index st' = index st
  /\ commits st' = commits st
  /\ forall p, has_path p (files st) = true -> has_path p (files st') = true.
Proof.
  unfold fetch_and_save.
  pose proof (save_config_frame env cfg hostname st) as F.
  destruct (save_config env cfg hostname st) as [[r|w] st1]; cbn [snd] in *;
    [exact F|].
  destruct (measure_frame env hostname w st1) as (M1 & _ & M2 & M3).
  rewrite M1, M2, M3. exact F.
Qed.

(** The worker whose session, directory and write succeed: what it holds
    at line 163 and what is on disk then. *)
Lemma save_config_ok (env : device_env) (cfg : config)
    (hostname : str) (st : store) (config_output error_output : str) :
  client_error env = None ->
  session env = inr (config_output, error_output) ->
  makedirs_error env = None ->
  write_error env = None ->
  let device_hostname :=
    ConfigParser.sanitize (ConfigParser.extract_hostname hostname config_output) in
  let hostname_dir := path_join (BACKUP_DIR cfg) device_hostname in
  let timestamp := get_timestamp (stamp_time env) in
  let filename := device_hostname ++ lit "_" ++ timestamp ++ lit ".conf" in
  let filepath := path_join hostname_dir filename in
  let st1 := snd (save_config env cfg hostname st) in
  fst (save_config env cfg hostname st)
  = inr {| l_hostname := device_hostname; l_timestamp := timestamp;
           l_filename := filename; l_filepath := filepath |}
  /\ files st1 = write_file filepath config_output (write_mtime env) (files st)
  /\ path_exists hostname_dir st1 = true.
Proof.
  intros Hc Hs Hm Hw device_hostname hostname_dir timestamp filename filepath st1.
  unfold st1, save_config. rewrite Hc, Hs, Hm, Hw.
  fold device_hostname. fold hostname_dir. fold timestamp. fold filename.
  fold filepath. cbn [fst snd files set_files].
  split; [reflexivity|]. split.
  - unfold makedirs. destruct (nonempty error_output);
      destruct (existsb _ _); reflexivity.
  - unfold path_exists, makedirs. cbn [dirs print set_files].
    destruct (nonempty error_output); cbn [dirs print];
      destruct (existsb (str_eqb hostname_dir) (dirs st)) eqn:E;
      cbn [dirs print set_dirs]; rewrite ?E; try reflexivity;
      rewrite existsb_app; cbn [existsb]; rewrite str_eqb_refl;
      now rewrite !orb_true_r.
Qed.

(** The same worker at line 173: the record it will return carries the
    size of its own configuration when nothing came between the write and
    line 163. *)
Lemma fetch_and_save_ok (env : device_env) (cfg : config)
    (hostname : str) (st : store) (config_output error_output : str) :
  client_error env = None ->
  session env = inr (config_output, error_output) ->
  makedirs_error env = None ->
  write_error env = None ->
  let device_hostname :=
    ConfigParser.sanitize (ConfigParser.extract_hostname hostname config_output) in
  let timestamp := get_timestamp (stamp_time env) in
  let filename := device_hostname ++ lit "_" ++ timestamp ++ lit ".conf" in
  let filepath := path_join (path_join (BACKUP_DIR cfg) device_hostname) filename in
  fetch_and_save env cfg hostname st
  = (inr {| d_hostname := device_hostname;
            d_ip := strip hostname;
            d_filename := filename;
            d_size_kb := Qmake (Z.of_nat (utf8_size config_output)) 1024;
            d_duration := total_seconds (start_time env) (end_time env);
            d_timestamp := timestamp |},
     print (lit "Backup saved to " ++ filepath)
       (snd (save_config env cfg hostname st))).
Proof.
  intros Hc Hs Hm Hw device_hostname timestamp filename filepath.
  destruct (save_config_ok env cfg hostname st config_output error_output
              Hc Hs Hm Hw) as (Hfst & Hfiles & _).
  unfold fetch_and_save.
  destruct (save_config env cfg hostname st) as [o st1]. cbn [fst snd] in *.
  subst o. unfold measure. cbn [l_filepath l_hostname l_filename l_timestamp].
  fold device_hostname timestamp filename filepath in Hfiles |- *.
  now rewrite Hfiles, getsize_write_file.
Qed.

(** A commit, failed or not, leaves the working tree as it is. *)
Lemma commit_to_git_disk (add_error commit_error : option str)
    (filename hostname : str) (st : store) :
  files (commit_to_git add_error commit_error filename hostname st) = files st
  /\ dirs (commit_to_git add_error commit_error filename hostname st) = dirs st.
Proof.
  unfold commit_to_git. destruct add_error, commit_error; split; reflexivity.
Qed.

Lemma commit_failure_logged (add_error commit_error : option str)
    (filename hostname : str) (st : store) (e : str) :
  add_error = Some e \/ (add_error = None /\ commit_error = Some e) ->
  In (lit "Git commit failed: " ++ e)
     (stdout (commit_to_git add_error commit_error filename hostname st)).
Proof.
  unfold commit_to_git. intros [->|[-> ->]]; simpl;
    apply in_or_app; right; now left.
Qed.

Lemma delete_loop_stdout (remove_error : str -> option str) (ps : list str) :
  forall st l, In l (stdout st) ->
               In l (stdout (fst (delete_loop remove_error ps st))).
Proof.
  induction ps as [|p ps IH]; intros st l H; cbn [delete_loop]; [exact H|].
  destruct (os_remove remove_error p (files st)) as [e|fs]; [exact H|].
  apply IH. simpl. apply in_or_app. now left.
Qed.

(** Retention only ever adds lines to standard output. *)
Lemma cleanup_stdout (matches : str -> str -> bool)
    (remove_error : str -> option str) (cfg : config) (hostname : str)
    (st : store) (l : str) :
  In l (stdout st) ->
  In l (stdout (cleanup_old_backups matches remove_error cfg hostname st)).
Proof.
  intros H. rewrite cleanup_unfold.
  destruct (negb _); [exact H|]. destruct (_ >? _)%Z; [|exact H].
  pose proof (delete_loop_stdout remove_error
    (map f_path (slice_to (- MAX_BACKUPS cfg)
       (sort_by f_mtime (snapshots matches cfg hostname st)))) st l H) as H'.
  destruct (delete_loop _ _ st) as [st' [e|]]; simpl in *; [|exact H'].
  apply in_or_app. now left.
Qed.

Lemma cleanup_failure_logged (matches : str -> str -> bool)
    (remove_error : str -> option str) (cfg : config) (hostname : str)
    (st : store) (e : str) :
  cleanup_raises matches remove_error cfg hostname st = Some e ->
  In (lit "Cleanup failed for " ++ hostname ++ lit ": " ++ e)
     (stdout (cleanup_old_backups matches remove_error cfg hostname st)).
Proof.
  unfold cleanup_raises. rewrite cleanup_unfold.
  destruct (negb _); [discriminate|]. destruct (_ >? _)%Z; [|discriminate].
  destruct (delete_loop _ _ st) as [st' [e'|]]; simpl; [|discriminate].
  intros [= ->]. apply in_or_app. right. now left.
Qed.

Lemma app_same_length_tail {A : Type} (a b c d : list A) :
  a ++ c = b ++ d -> List.length c = List.length d -> a = b /\ c = d.
Proof.
  revert b. induction a as [|x a IH]; intros [|y b] E L; simpl in E.
  - auto.
  - apply (f_equal (@List.length A)) in E. simpl in E.
    rewrite length_app in E. lia.
  - apply (f_equal (@List.length A)) in E. simpl in E.
    rewrite length_app in E. lia.
  - injection E as -> E. destruct (IH b E L) as [-> ->]. auto.
Qed.

Lemma get_timestamp_length (now : datetime) :
  List.length (get_timestamp now) = 15.
Proof. reflexivity. Qed.

(** Two snapshot names coincide only when both the identity and the
    timestamp do. *)
Lemma filenames_differ (id1 id2 : str) (t1 t2 : datetime) :
  id1 <> id2 \/ get_timestamp t1 <> get_timestamp t2 ->
  id1 ++ lit "_" ++ get_timestamp t1 ++ lit ".conf"
  <> id2 ++ lit "_" ++ get_timestamp t2 ++ lit ".conf".
Proof.
  intros H E.
  pose proof (get_timestamp_length t1) as L1.
  pose proof (get_timestamp_length t2) as L2.
  remember (get_timestamp t1) as ts1. remember (get_timestamp t2) as ts2.
  apply app_same_length_tail in E as [E1 E2].
  - destruct H as [H|H]; [contradiction|]. apply H.
    unfold lit in E2. simpl in E2. injection E2 as E2.
    now apply app_inv_tail in E2.
  - rewrite !length_app, L1, L2. reflexivity.
Qed.

(** Whatever the session does, a worker whose client could be built
    returns a pair: exceptions inside the [try] become failures. *)
Lemma backup_router_returns (env : device_env) (cfg : config)
    (hostname : str) (st : store) :
  client_error env = None ->
  exists r, fst (backup_router env cfg hostname st) = Returned r.
Proof.
  intros Hc. unfold backup_router, fetch_and_save, save_config. rewrite Hc.
  destruct (session env) as [x|[config_output error_output]].
  - destruct x; eexists; reflexivity.
  - destruct (makedirs_error env); [eexists; reflexivity|].
    destruct (write_error env) as [[e|e on_disk]|]; try (eexists; reflexivity).
    unfold measure. destruct (getsize _ _); eexists; reflexivity.
Qed.

Lemma backup_router_session_failure (env : device_env) (cfg : config)
    (hostname : str) (st : store) (x : exn) :
  client_error env = None -> session env = inl x ->
  exists error_msg,
    fst (backup_router env cfg hostname st) = Returned (Failure error_msg)
    /\ files (snd (backup_router env cfg hostname st)) = files st.
Proof.
  intros Hc Hs. unfold backup_router, fetch_and_save, save_config.
  rewrite Hc, Hs.
  destruct x; eexists; split; reflexivity.
Qed.

End WorkerFacts.

(** The retention run of section 8 of the specification: eleven snapshots
    on disk, a limit of ten, one more backup; the two oldest files go and ten
    stay. *)
Example backup_router_eleven_prior :
  let run :=
    backup_router (Sample.device (lit "hostname R1") (Sample.clock 1 0))
      (Sample.cfg 10) (lit "10.0.0.1") (Sample.earlier 11) in
  map f_mtime (files (snd run)) = [3; 4; 5; 6; 7; 8; 9; 10; 11; 100]%Z.
Proof. vm_compute. reflexivity. Qed.

(** C5.  For every device whose session returned a configuration and whose
    snapshot was written, the worker returns the success record built from
    the fetch alone, whatever Git and the retention pass do afterwards.  The
    snapshot is on disk after the write, the commit step leaves the files as
    they are whether it fails or not, and a failure of the commit or of the
    retention pass shows as a line on standard output. *)
Theorem store_failure_keeps_success (env : device_env) (cfg : config)
    (hostname : str) (st : store) (config_output error_output : str) :
  client_error env = None ->
  session env = inr (config_output, error_output) ->
  makedirs_error env = None ->
  write_error env = None ->
  let device_hostname :=
    ConfigParser.sanitize (ConfigParser.extract_hostname hostname config_output) in
  let timestamp := get_timestamp (stamp_time env) in
  let filename := device_hostname ++ lit "_" ++ timestamp ++ lit ".conf" in
  let filepath := path_join (path_join (BACKUP_DIR cfg) device_hostname) filename in
  let saved := snd (fetch_and_save env cfg hostname st) in
  let committed :=
    commit_to_git (git_add_error env) (git_commit_error env)
      filename device_hostname saved in
  let final := snd (backup_router env cfg hostname st) in
  fst (backup_router env cfg hostname st)
  = Returned (Success
      {| d_hostname := device_hostname;
         d_ip := strip hostname;
         d_filename := filename;
         d_size_kb := Qmake (Z.of_nat (utf8_size config_output)) 1024;
         d_duration := total_seconds (start_time env) (end_time env);
         d_timestamp := timestamp |})
  /\ In {| f_path := filepath; f_mtime := write_mtime env; f_data := config_output |}
        (files saved)
  /\ files committed = files saved
  /\ final = cleanup_old_backups (matches env) (remove_error env) cfg
               device_hostname committed
  /\ (forall e,
        git_add_error env = Some e
        \/ (git_add_error env = None /\ git_commit_error env = Some e) ->
        In (lit "Git commit failed: " ++ e) (stdout final))
  /\ (forall e,
        cleanup_raises (matches env) (remove_error env) cfg device_hostname
          committed = Some e ->
        In (lit "Cleanup failed for " ++ device_hostname ++ lit ": " ++ e)
           (stdout final)).
Proof.
  intros Hc Hs Hm Hw device_hostname timestamp filename filepath
         saved committed final.
  pose proof (fetch_and_save_ok env cfg hostname st config_output error_output
                Hc Hs Hm Hw) as Hfetch.
  destruct (save_config_ok env cfg hostname st config_output error_output
              Hc Hs Hm Hw) as (_ & Hfiles & _).
  cbv zeta in Hfetch, Hfiles.
  fold device_hostname timestamp filename filepath in Hfetch, Hfiles.
  assert (Hfinal : final = cleanup_old_backups (matches env) (remove_error env)
                             cfg device_hostname committed).
  { unfold final, committed, saved, backup_router. rewrite Hfetch. reflexivity. }
  split; [|split; [|split; [|split; [exact Hfinal|split]]]].
  - unfold backup_router. rewrite Hfetch. reflexivity.
  - unfold saved. rewrite Hfetch. cbn [snd files print]. rewrite Hfiles.
    apply write_file_In.
  - apply commit_to_git_disk.
  - intros e He. rewrite Hfinal. apply cleanup_stdout.
    now apply commit_failure_logged.
  - intros e He. rewrite Hfinal. now apply cleanup_failure_logged.
Qed.

Lemma store_failure_keeps_success_witness :
  let env := Sample.device_store_down (lit "hostname R1") (Sample.clock 1 0) in
  let run := backup_router env (Sample.cfg 1) (lit "10.0.0.1") Sample.disk in
  (exists d, fst run = Returned (Success d)
             /\ d_filename d = lit "R1_20240101_000001.conf")
  /\ has_path (lit "/backups/R1/R1_20240101_000001.conf") (files (snd run)) = true
  /\ In (lit "Git commit failed: index.lock exists") (stdout (snd run))
  /\ In (lit "Cleanup failed for R1: Permission denied") (stdout (snd run)).
Proof.
  intros env run.
  destruct (store_failure_keeps_success env (Sample.cfg 1) (lit "10.0.0.1")
              Sample.disk (lit "hostname R1") []
              eq_refl eq_refl eq_refl eq_refl)
    as (H1 & H2 & H3 & H4 & H5 & H6).
  split; [|split; [reflexivity|split]].
  - eexists. split; [exact H1|reflexivity].
  - exact (H5 (lit "index.lock exists") (or_introl eq_refl)).
  - exact (H6 (lit "Permission denied") eq_refl).
Defined.

(** C8 at two devices that carry the same name.  Two workers of one run
    fetch from different addresses within the same second; both
    configurations say [hostname R1].  Both workers succeed, their records
    name the same file, and one file is on disk, holding the second
    configuration. *)
Theorem same_second_same_filename :
  let a := Sample.device (lit "hostname R1 ! site A") (Sample.clock 1 100) in
  let b := Sample.device (lit "hostname R1 ! site B") (Sample.clock 1 900) in
  let first := backup_router a (Sample.cfg 10) (lit "10.0.0.1") Sample.empty_disk in
  let second := backup_router b (Sample.cfg 10) (lit "10.0.0.2") (snd first) in
  exists da db,
    fst first = Returned (Success da)
    /\ fst second = Returned (Success db)
    /\ d_ip da = lit "10.0.0.1" /\ d_ip db = lit "10.0.0.2"
    /\ d_filename da = lit "R1_20240101_000001.conf"
    /\ d_filename db = d_filename da
    /\ map f_data (files (snd second)) = [lit "hostname R1 ! site B"].
Proof.
  do 2 eexists. repeat split; reflexivity.
Qed.

Example total_seconds_ex :
  total_seconds (Sample.clock 58 500) (Sample.clock 59 700) = Qmake 1000200 1000000.
Proof. reflexivity. Qed.

Example get_timestamp_ex :
  get_timestamp {| year := 2024; month := 2; day := 29; hour := 23;
                   minute := 5; second := 9; microsecond := 17 |}
  = lit "20240229_230509".
Proof. reflexivity. Qed.

(** ** The orchestrator *)

Section OrchestratorFacts.

Variable env : job_env.

Lemma collect_spec (l : list (nat * str)) : forall ok bad,
  collect env l (ok, bad)
  = (ok ++ flat_map (success_of env) l, bad ++ flat_map (failure_of env) l).
Proof.
  induction l as [|[i host] l IH]; intros ok bad; cbn [collect flat_map].
  - now rewrite !app_nil_r.
  - unfold success_of at 1, failure_of at 1. cbn [fst snd].
    destruct (future_result env i host) as [[d|e]|exc]; rewrite IH;
      cbn [app]; now rewrite <- ?app_assoc.
Qed.

Lemma contribution_one (f : nat * str) :
  List.length (success_of env f) + List.length (failure_of env f) = 1.
Proof.
  unfold success_of, failure_of.
  destruct (future_result env (fst f) (snd f)) as [[d|e]|exc]; reflexivity.
Qed.

Lemma contributions_total (l : list (nat * str)) :
  List.length (flat_map (success_of env) l)
  + List.length (flat_map (failure_of env) l) = List.length l.
Proof.
  induction l as [|f l IH]; cbn [flat_map]; [reflexivity|].
  rewrite !length_app. pose proof (contribution_one f). simpl. lia.
Qed.

Lemma submit_hosts (hosts : list str) :
  map snd (submit hosts) = filter nonempty hosts.
Proof.
  unfold submit. generalize (filter nonempty hosts) as live. intros live.
  generalize 0 as start. induction live as [|h live IH]; intros start; simpl.
  - reflexivity.
  - now rewrite IH.
Qed.

Lemma submit_none (hosts : list str) :
  filter nonempty hosts = [] -> submit hosts = [].
Proof. unfold submit. now intros ->. Qed.

Lemma no_routers_live (hosts : list str) :
  no_routers hosts = true -> filter nonempty hosts = [].
Proof. destruct hosts as [|[|c h] [|h' hosts]]; simpl; congruence. Qed.

(** A run that gets past the two checks of lines 209-215 and the set-up
    of lines 217-221. *)
Lemma main_running (cfg : config) :
  no_routers (ROUTER_HOSTS cfg) = false ->
  truthy (USERNAME cfg) = true ->
  truthy (PASSWORD cfg) = true ->
  snd (setup env) = None ->
  let done := as_completed env (submit (ROUTER_HOSTS cfg)) in
  let ok := flat_map (success_of env) done in
  let bad := flat_map (failure_of env) done in
  dispatched (main env cfg) = submit (ROUTER_HOSTS cfg)
  /\ success_details (main env cfg) = ok
  /\ failed_hosts (main env cfg) = bad
  /\ (nonempty_list bad || nonempty_list ok = false -> posted (main env cfg) = [])
  /\ (exists out, output (main env cfg) = out ++ [lit "Backup job completed."])
  /\ uncaught (main env cfg) = None.
Proof.
  intros Hr Hu Hp Hset done ok bad. unfold main. rewrite Hr, Hu, Hp.
  cbn [negb orb]. destruct (setup env) as [out0 raised]. cbn [snd] in Hset.
  subst raised. rewrite collect_spec. cbn [app]. fold done ok bad.
  destruct (nonempty_list bad || nonempty_list ok).
  - destruct (send_telegram_notification _ _ _ _) as [sent out].
    repeat split; try discriminate. now exists out.
  - repeat split. eexists; reflexivity.
Qed.

(** A run that the set-up ends: the exception leaves [main] before line
    223, so nothing is submitted, collected or posted. *)
Lemma main_aborted (cfg : config) (e : str) :
  no_routers (ROUTER_HOSTS cfg) = false ->
  truthy (USERNAME cfg) = true ->
  truthy (PASSWORD cfg) = true ->
  snd (setup env) = Some e ->
  main env cfg = aborted (fst (setup env)) e.
Proof.
  intros Hr Hu Hp Hset. unfold main. rewrite Hr, Hu, Hp. cbn [negb orb].
  destruct (setup env) as [out0 raised]. cbn [fst snd] in *. now subst raised.
Qed.

Lemma main_quiet (cfg : config) :
  no_routers (ROUTER_HOSTS cfg) = true
  \/ truthy (USERNAME cfg) = false \/ truthy (PASSWORD cfg) = false ->
  dispatched (main env cfg) = []
  /\ success_details (main env cfg) = []
  /\ failed_hosts (main env cfg) = []
  /\ posted (main env cfg) = [].
Proof.
  intros H. unfold main.
  destruct (no_routers (ROUTER_HOSTS cfg)); [repeat split|].
  destruct H as [H|[H|H]]; [discriminate| |]; rewrite H; simpl;
    rewrite ?orb_true_r; repeat split.
Qed.

End OrchestratorFacts.

(** The run of section 8 of the specification: three devices, the second
    rejects the credentials.  Two success records, one failure record, one
    delivery attempt. *)
Example main_three_devices :
  let r := main Sample.job (Sample.fleet (Some (lit "123:abc")) (Some (lit "42"))) in
  map snd (dispatched r) = [lit "10.0.0.1"; lit "10.0.0.2"; lit "10.0.0.3"]
  /\ map d_hostname (success_details r) = [lit "C"; lit "A"]
  /\ map ip (failed_hosts r) = [lit "10.0.0.2"]
  /\ map url (posted r) = [lit "https://api.telegram.org/bot123:abc/sendMessage"].
Proof. repeat split. Qed.

(** C1, as stated, fails.  Credentials are set and the list holds three
    addresses, but the backup directory cannot be made: the exception of line
    218 leaves [main], which has no handler around lines 217-221.  No worker
    is dispatched, neither list gets a record, and the last line of the run
    is never printed.  The same happens when [Repo.init] fails, after the
    line that announces it. *)
Lemma main_aborts_when_setup_raises :
  let cfg := Sample.fleet None None in
  let r := main Sample.job_no_tree cfg in
  let r' := main Sample.job_no_repo cfg in
  truthy (USERNAME cfg) = true
  /\ truthy (PASSWORD cfg) = true
  /\ List.length (filter nonempty (ROUTER_HOSTS cfg)) = 3
  /\ dispatched r = []
  /\ List.length (success_details r) + List.length (failed_hosts r) = 0
  /\ uncaught r = Some (lit "[Errno 13] Permission denied: '/backups'")
  /\ output r = []
  /\ dispatched r' = []
  /\ List.length (success_details r') + List.length (failed_hosts r') = 0
  /\ uncaught r' = Some (lit "Cmd('git') failed due to: exit code(128)")
  /\ output r' = [lit "Initializing Git repository..."].
Proof. repeat split. Qed.

(** C1, as the code has it.  With credentials configured and the set-up of
    lines 217-221 done without an exception, for every device list, every
    outcome of the workers and every order in which they finish: one worker
    is dispatched per address that is not the empty string; no exception
    leaves the run, which reaches its last line; each future, whether it
    returned a success, returned an error or raised, adds exactly one record,
    to the success list or to the failure list; and the two lists together
    hold as many records as there are non-empty addresses. *)
Theorem main_one_record_per_address (env : job_env) (cfg : config) :
  truthy (USERNAME cfg) = true ->
  truthy (PASSWORD cfg) = true ->
  snd (setup env) = None ->
  let r := main env cfg in
  let done := as_completed env (dispatched r) in
  map snd (dispatched r) = filter nonempty (ROUTER_HOSTS cfg)
  /\ Permutation done (dispatched r)
  /\ success_details r = flat_map (success_of env) done
  /\ failed_hosts r = flat_map (failure_of env) done
  /\ (forall f, In f (dispatched r) ->
        List.length (success_of env f) + List.length (failure_of env f) = 1)
  /\ List.length (success_details r) + List.length (failed_hosts r)
     = List.length (filter nonempty (ROUTER_HOSTS cfg))
  /\ uncaught r = None
  /\ (no_routers (ROUTER_HOSTS cfg) = false ->
      exists out, output r = out ++ [lit "Backup job completed."]).
Proof.
  intros Hu Hp Hset r done.
  assert (Hperm : Permutation done (dispatched r)) by apply sort_by_perm.
  assert (H : dispatched r = submit (ROUTER_HOSTS cfg)
              /\ success_details r = flat_map (success_of env) done
              /\ failed_hosts r = flat_map (failure_of env) done
              /\ uncaught r = None
              /\ (no_routers (ROUTER_HOSTS cfg) = false ->
                  exists out, output r = out ++ [lit "Backup job completed."])).
  { destruct (no_routers (ROUTER_HOSTS cfg)) eqn:Hr.
    - destruct (main_quiet env cfg (or_introl Hr)) as (Hd & Hs & Hf & _).
      unfold done, r. rewrite Hd, Hs, Hf.
      rewrite (submit_none _ (no_routers_live _ Hr)).
      repeat split; try discriminate.
      unfold main. now rewrite Hr.
    - destruct (main_running env cfg Hr Hu Hp Hset) as (Hd & Hs & Hf & _ & Ho & Hx).
      unfold done, r. rewrite Hd, Hs, Hf. repeat split; [exact Hx|].
      intros _. exact Ho. }
  destruct H as (Hd & Hs & Hf & Hx & Ho).
  split; [rewrite Hd; apply submit_hosts|].
  split; [exact Hperm|]. split; [exact Hs|]. split; [exact Hf|].
  split; [intros f _; apply contribution_one|].
  split; [|split; [exact Hx|exact Ho]].
  rewrite Hs, Hf, contributions_total, (Permutation_length Hperm).
  rewrite <- (length_map snd), Hd. now rewrite submit_hosts.
Qed.

Lemma main_one_record_per_address_witness :
  let cfg := Sample.fleet None None in
  let r := main Sample.job cfg in
  truthy (USERNAME cfg) = true
  /\ truthy (PASSWORD cfg) = true
  /\ snd (setup Sample.job) = None
  /\ List.length (filter nonempty (ROUTER_HOSTS cfg)) = 3
  /\ List.length (success_details r) + List.length (failed_hosts r) = 3
  /\ uncaught r = None.
Proof.
  intros cfg r.
  destruct (main_one_record_per_address Sample.job cfg eq_refl eq_refl eq_refl)
    as (_ & _ & _ & _ & _ & H & Hx & _).
  split; [reflexivity|]. split; [reflexivity|]. split; [reflexivity|].
  split; [reflexivity|]. split; [exact H|exact Hx].
Defined.

(** C6.  When no address is left after the empty ones are dropped, or the
    user name or the password is missing, no worker is dispatched, both
    record lists are empty and nothing is posted; and in every run a post is
    made only when one of the two lists holds a record. *)
Theorem main_quiet_when_misconfigured (env : job_env) (cfg : config) :
  (filter nonempty (ROUTER_HOSTS cfg) = []
   \/ truthy (USERNAME cfg) = false \/ truthy (PASSWORD cfg) = false ->
   dispatched (main env cfg) = []
   /\ success_details (main env cfg) = []
   /\ failed_hosts (main env cfg) = []
   /\ posted (main env cfg) = [])
  /\ (posted (main env cfg) <> [] ->
      success_details (main env cfg) <> [] \/ failed_hosts (main env cfg) <> []).
Proof.
  destruct (no_routers (ROUTER_HOSTS cfg)) eqn:Hr.
  { destruct (main_quiet env cfg (or_introl Hr)) as (Hd & Hs & Hf & Hn).
    split; [intros _; auto|]. intros H. contradiction. }
  destruct (truthy (USERNAME cfg)) eqn:Hu.
  2:{ destruct (main_quiet env cfg (or_intror (or_introl Hu))) as (Hd & Hs & Hf & Hn).
      split; [intros _; auto|]. intros H. contradiction. }
  destruct (truthy (PASSWORD cfg)) eqn:Hp.
  2:{ destruct (main_quiet env cfg (or_intror (or_intror Hp))) as (Hd & Hs & Hf & Hn).
      split; [intros _; auto|]. intros H. contradiction. }
  destruct (snd (setup env)) as [e|] eqn:Hset.
  { rewrite (main_aborted env cfg e Hr Hu Hp Hset). cbn.
    split; [intros _; auto|]. intros H. contradiction. }
  destruct (main_running env cfg Hr Hu Hp Hset) as (Hd & Hs & Hf & Hn & _).
  split.
  - intros [H|[H|H]]; try discriminate.
    rewrite (submit_none _ H) in Hd, Hs, Hf, Hn.
    repeat split; try assumption. now apply Hn.
  - intros H. rewrite Hs, Hf.
    destruct (flat_map (failure_of env) _) as [|b bad]; [|right; discriminate].
    destruct (flat_map (success_of env) _) as [|d ok]; [|left; discriminate].
    exfalso. apply H. now apply Hn.
Qed.

Lemma main_quiet_when_misconfigured_witness :
  let no_hosts := main Sample.job (Sample.misconfigured None (Some (lit "admin"))) in
  let blank_hosts :=
    main Sample.job (Sample.misconfigured (Some (lit ",,")) (Some (lit "admin"))) in
  let no_user :=
    main Sample.job (Sample.misconfigured (Some (lit "10.0.0.1")) None) in
  (dispatched no_hosts = [] /\ posted no_hosts = [])
  /\ (dispatched blank_hosts = [] /\ posted blank_hosts = [])
  /\ (dispatched no_user = [] /\ posted no_user = []).
Proof.
  intros no_hosts blank_hosts no_user.
  pose proof (main_quiet_when_misconfigured Sample.job
                (Sample.misconfigured None (Some (lit "admin")))) as [H1 _].
  pose proof (main_quiet_when_misconfigured Sample.job
                (Sample.misconfigured (Some (lit ",,")) (Some (lit "admin")))) as [H2 _].
  pose proof (main_quiet_when_misconfigured Sample.job
                (Sample.misconfigured (Some (lit "10.0.0.1")) None)) as [H3 _].
  specialize (H1 (or_introl eq_refl)).
  specialize (H2 (or_introl eq_refl)).
  specialize (H3 (or_intror (or_introl eq_refl))).
  repeat split; tauto.
Defined.

(** C10.  When the bot token or the chat identifier is unset or empty, the
    notification step posts nothing, whatever the message, and a run posts
    nothing even when it ends with records. *)
Theorem notification_skipped_unconfigured (env : job_env) (cfg : config) :
  truthy (TELEGRAM_BOT_TOKEN cfg) = false
  \/ truthy (TELEGRAM_CHAT_ID cfg) = false ->
  (forall post_error message w,
     fst (send_telegram_notification cfg post_error message w) = fst w)
  /\ posted (main env cfg) = [].
Proof.
  intros H.
  assert (Hsend : forall post_error message w,
             fst (send_telegram_notification cfg post_error message w) = fst w).
  { intros post_error message [sent out]. unfold send_telegram_notification.
    destruct H as [-> | ->]; simpl; rewrite ?orb_true_r; reflexivity. }
  split; [exact Hsend|]. unfold main.
  destruct (no_routers _); [reflexivity|].
  destruct (negb _ || negb _); [reflexivity|].
  destruct (setup env) as [out0 [e|]]; [reflexivity|].
  destruct (collect _ _ _) as [ok bad].
  destruct (nonempty_list bad || nonempty_list ok); [|reflexivity].
  specialize (Hsend (post_error env)
    (build_message env (List.length (ROUTER_HOSTS cfg)) ok bad
       (total_seconds (job_start_time env) (job_end_time env)) (job_end_time env))
    ([], out0 ++ [lit "Starting backup job for "
                  ++ decimal (List.length (ROUTER_HOSTS cfg)) ++ lit " routers."])).
  destruct (send_telegram_notification _ _ _ _) as [sent out]. exact Hsend.
Qed.

Lemma notification_skipped_unconfigured_witness :
  let cfg := Sample.fleet (Some (lit "123:abc")) None in
  let r := main Sample.job cfg in
  (truthy (TELEGRAM_BOT_TOKEN cfg) = false
   \/ truthy (TELEGRAM_CHAT_ID cfg) = false)
  /\ List.length (success_details r) = 2
  /\ List.length (failed_hosts r) = 1
  /\ posted r = [].
Proof.
  intros cfg r.
  assert (H : truthy (TELEGRAM_BOT_TOKEN cfg) = false
              \/ truthy (TELEGRAM_CHAT_ID cfg) = false) by (right; reflexivity).
  split; [exact H|]. split; [reflexivity|]. split; [reflexivity|].
  exact (proj2 (notification_skipped_unconfigured Sample.job cfg H)).
Defined.

(** ** Workers running side by side *)

Module LockingFacts.
Import Locking.

Lemma set_pc_same (i : nat) (p : pc) (f : nat -> pc) : set_pc i p f i = p.
Proof. unfold set_pc. now rewrite Nat.eqb_refl. Qed.

Lemma set_pc_other (i j : nat) (p : pc) (f : nat -> pc) :
  j <> i -> set_pc i p f j = f j.
Proof. unfold set_pc. intros H. apply Nat.eqb_neq in H. now rewrite H. Qed.

Section Workers.

Variable cfg : config.
Variable env : nat -> device_env.
Variable host : nat -> str.

(** A worker outside the block moves to another place outside it. *)
Lemma outside_step (s : state) (i : nat) (p : pc) (st' : store) :
  exclusive s -> in_region (pcs s i) = false -> in_region p = false ->
  exclusive {| locked := locked s; pcs := set_pc i p (pcs s); shared := st' |}.
Proof.
  intros [[Hl Hall]|(Hl & h & Hh & Huniq)] Hi Hp; [left|right]; simpl.
  - split; [exact Hl|]. intros j. destruct (Nat.eq_dec j i) as [->|Hn].
    + now rewrite set_pc_same.
    + rewrite set_pc_other by exact Hn. apply Hall.
  - split; [exact Hl|]. exists h.
    assert (Hhi : h <> i) by (intros ->; congruence).
    split; [now rewrite set_pc_other|].
    intros j Hj. destruct (Nat.eq_dec j i) as [->|Hn].
    + rewrite set_pc_same in Hj. congruence.
    + rewrite set_pc_other in Hj by exact Hn. now apply Huniq.
Qed.

(** The worker inside the block leaves it and the lock is cleared. *)
Lemma leave_step (s : state) (i : nat) (p : pc) (st' : store) :
  exclusive s -> in_region (pcs s i) = true -> in_region p = false ->
  exclusive {| locked := false; pcs := set_pc i p (pcs s); shared := st' |}.
Proof.
  intros [[Hl Hall]|(Hl & h & Hh & Huniq)] Hi Hp.
  - rewrite Hall in Hi. discriminate.
  - left. simpl. split; [reflexivity|]. intros j.
    destruct (Nat.eq_dec j i) as [->|Hn].
    + now rewrite set_pc_same.
    + rewrite set_pc_other by exact Hn.
      destruct (in_region (pcs s j)) eqn:Hj; [|reflexivity].
      rewrite (Huniq j Hj), <- (Huniq i Hi) in Hn. contradiction.
Qed.

Lemma step_exclusive (s s' : state) :
  step cfg env host s s' -> exclusive s -> exclusive s'.
Proof.
  intros Hstep Hex. destruct Hstep as
    [i s r st' Hpc _ _|i s w st' Hpc _ _|i s w r st' Hpc _|i s w d st' Hpc _
    |i s d Hpc Hfree|i s d Hpc|i s d Hpc|i s e Hin].
  - apply outside_step; [exact Hex|now rewrite Hpc|reflexivity].
  - apply outside_step; [exact Hex|now rewrite Hpc|reflexivity].
  - apply outside_step; [exact Hex|now rewrite Hpc|reflexivity].
  - apply outside_step; [exact Hex|now rewrite Hpc|reflexivity].
  - destruct Hex as [[_ Hall]|(Hl & _)]; [|congruence].
    right. simpl. split; [reflexivity|]. exists i.
    split; [now rewrite set_pc_same|].
    intros j Hj. destruct (Nat.eq_dec j i) as [->|Hn]; [reflexivity|].
    rewrite set_pc_other in Hj by exact Hn. rewrite Hall in Hj. discriminate.
  - destruct Hex as [[_ Hall]|(Hl & h & Hh & Huniq)].
    { specialize (Hall i). rewrite Hpc in Hall. discriminate. }
    assert (Hi : h = i) by (symmetry; apply Huniq; now rewrite Hpc).
    subst h. right. simpl. split; [exact Hl|]. exists i.
    split; [now rewrite set_pc_same|].
    intros j Hj. destruct (Nat.eq_dec j i) as [->|Hn]; [reflexivity|].
    rewrite set_pc_other in Hj by exact Hn. now apply Huniq.
  - apply leave_step; [exact Hex|now rewrite Hpc|reflexivity].
  - apply leave_step; [exact Hex|exact Hin|reflexivity].
Qed.

Lemma reachable_exclusive (st0 : store) (s : state) :
  reachable cfg env host st0 s -> exclusive s.
Proof.
  induction 1 as [|s s' _ IH Hstep].
  - left. split; reflexivity.
  - exact (step_exclusive s s' Hstep IH).
Qed.

(** A step that takes a worker out of the block clears the lock. *)
Lemma exit_releases (s s' : state) (i : nat) :
  step cfg env host s s' ->
  in_region (pcs s i) = true -> in_region (pcs s' i) = false ->
  locked s' = false.
Proof.
  intros Hstep Hin Hout. destruct Hstep as
    [k s r st' Hpc _ _|k s w st' Hpc _ _|k s w r st' Hpc _|k s w d st' Hpc _
    |k s d Hpc Hfree|k s d Hpc|k s d Hpc|k s e Hk];
    simpl in *; try reflexivity;
    (destruct (Nat.eq_dec i k) as [->|Hn];
     [rewrite ?set_pc_same in Hout; rewrite ?Hpc in Hin; simpl in *; congruence
     |rewrite set_pc_other in Hout by exact Hn; congruence]).
Qed.

(** A step that stages a path, adds a commit or takes a file away is a
    step of a worker inside the block. *)
Lemma mutation_inside (s s' : state) :
  step cfg env host s s' ->
  index (shared s') <> index (shared s)
  \/ commits (shared s') <> commits (shared s)
  \/ (exists p, has_path p (files (shared s)) = true
                /\ has_path p (files (shared s')) = false) ->
  exists i, in_region (pcs s i) = true.
Proof.
  intros Hstep H. destruct Hstep as
    [k s r st' Hpc _ E|k s w st' Hpc _ E|k s w r st' Hpc E|k s w d st' Hpc E
    |k s d Hpc Hfree|k s d Hpc|k s d Hpc|k s e Hk];
    simpl in H.
  - pose proof (save_config_frame (env k) cfg (host k) (shared s)) as F.
    rewrite E in F. simpl in F. destruct F as (F1 & F2 & F3).
    destruct H as [H|[H|(p & H1 & H2)]]; try contradiction.
    rewrite (F3 p H1) in H2. discriminate.
  - pose proof (save_config_frame (env k) cfg (host k) (shared s)) as F.
    rewrite E in F. simpl in F. destruct F as (F1 & F2 & F3).
    destruct H as [H|[H|(p & H1 & H2)]]; try contradiction.
    rewrite (F3 p H1) in H2. discriminate.
  - pose proof (measure_frame (env k) (host k) w (shared s)) as F.
    rewrite E in F. simpl in F. destruct F as (F1 & _ & F2 & F3).
    destruct H as [H|[H|(p & H1 & H2)]]; try contradiction.
    rewrite F1 in H2. congruence.
  - pose proof (measure_frame (env k) (host k) w (shared s)) as F.
    rewrite E in F. simpl in F. destruct F as (F1 & _ & F2 & F3).
    destruct H as [H|[H|(p & H1 & H2)]]; try contradiction.
    rewrite F1 in H2. congruence.
  - destruct H as [H|[H|(p & H1 & H2)]]; try contradiction. congruence.
  - exists k. now rewrite Hpc.
  - exists k. now rewrite Hpc.
  - now exists k.
Qed.

Lemma reachable_steps (st0 : store) (s s' : state) :
  reachable cfg env host st0 s -> steps cfg env host s s' ->
  reachable cfg env host st0 s'.
Proof.
  intros Hreach Hsteps. induction Hsteps as [s|s s1 s2 Hstep _ IH];
    [exact Hreach|].
  apply IH. eapply reach_step; eassumption.
Qed.

Lemma steps_one (s s' : state) :
  step cfg env host s s' -> steps cfg env host s s'.
Proof. intros H. eapply steps_more; [exact H|apply steps_none]. Qed.

Lemma steps_trans (s1 s2 s3 : state) :
  steps cfg env host s1 s2 -> steps cfg env host s2 s3 ->
  steps cfg env host s1 s3.
Proof.
  intros H12 H23. induction H12 as [s|s s' s'' Hstep _ IH]; [exact H23|].
  eapply steps_more; [exact Hstep|]. now apply IH.
Qed.

(** The steps of one worker, taken without interruption from a state
    where the lock is clear, amount to one call of [backup_router]. *)
Lemma solo_run (st0 : store) (s : state) (i : nat) :
  reachable cfg env host st0 s ->
  pcs s i = Fetching ->
  nonempty (host i) = true ->
  locked s = false ->
  exists s',
    reachable cfg env host st0 s'
    /\ pcs s' i = Done (fst (backup_router (env i) cfg (host i) (shared s)))
    /\ shared s' = snd (backup_router (env i) cfg (host i) (shared s))
    /\ locked s' = false.
Proof.
  intros Hreach Hpc Hlive Hfree. unfold backup_router, fetch_and_save.
  destruct (save_config (env i) cfg (host i) (shared s)) as [[r|w] st1] eqn:E.
  { eexists. split.
    - eapply reach_step; [exact Hreach|].
      eapply step_ended; [exact Hpc|exact Hlive|exact E].
    - simpl. rewrite set_pc_same. auto. }
  set (s0 := {| locked := locked s; pcs := set_pc i (Written w) (pcs s);
                shared := st1 |}).
  assert (R0 : reachable cfg env host st0 s0).
  { eapply reach_step; [exact Hreach|]. now apply step_saved. }
  destruct (measure (env i) (host i) w st1) as [[r|d] st2] eqn:M.
  { eexists. split.
    - eapply reach_step; [exact R0|].
      eapply (step_lost cfg env host i s0); [apply set_pc_same|exact M].
    - simpl. rewrite set_pc_same. auto. }
  set (s1 := {| locked := locked s0; pcs := set_pc i (Waiting d) (pcs s0);
                shared := st2 |}).
  assert (R1 : reachable cfg env host st0 s1).
  { eapply reach_step; [exact R0|].
    eapply (step_measured cfg env host i s0); [apply set_pc_same|exact M]. }
  set (s2 := {| locked := true; pcs := set_pc i (Committing d) (pcs s1);
                shared := shared s1 |}).
  assert (R2 : reachable cfg env host st0 s2).
  { eapply reach_step; [exact R1|].
    apply step_acquire; [apply set_pc_same|exact Hfree]. }
  set (s3 := {| locked := locked s2; pcs := set_pc i (Cleaning d) (pcs s2);
                shared := commit_to_git (git_add_error (env i))
                            (git_commit_error (env i))
                            (d_filename d) (d_hostname d) (shared s2) |}).
  assert (R3 : reachable cfg env host st0 s3).
  { eapply reach_step; [exact R2|]. apply step_commit. apply set_pc_same. }
  exists {| locked := false;
            pcs := set_pc i (Done (Returned (Success d))) (pcs s3);
            shared := cleanup_old_backups (matches (env i)) (remove_error (env i))
                        cfg (d_hostname d) (shared s3) |}.
  split.
  - eapply reach_step; [exact R3|]. apply step_cleanup. apply set_pc_same.
  - simpl. rewrite set_pc_same. repeat split.
Qed.

End Workers.

End LockingFacts.

(** One step of a sample run. *)
Tactic Notation "take" open_constr(c) :=
  eapply Locking.steps_more; [eapply c; reflexivity|].

(** C4.  In every state the workers of one run can reach, under any
    interleaving: at most one worker is inside the commit-and-retention
    block; the lock is set while a worker is inside and clear while none is;
    every step that takes a worker out of the block, its normal end or an
    exception passing through it, leaves the lock clear; and a step that
    stages a path, adds a commit or removes a file is taken while a worker is
    inside the block and the lock is set. *)
Theorem lock_excludes (cfg : config) (env : nat -> device_env)
    (host : nat -> str) (st0 : store) (s : Locking.state) :
  Locking.reachable cfg env host st0 s ->
  (forall i j,
      Locking.in_region (Locking.pcs s i) = true ->
      Locking.in_region (Locking.pcs s j) = true -> i = j)
  /\ (forall i, Locking.in_region (Locking.pcs s i) = true ->
                Locking.locked s = true)
  /\ ((forall i, Locking.in_region (Locking.pcs s i) = false) ->
      Locking.locked s = false)
  /\ (forall s' i,
        Locking.step cfg env host s s' ->
        Locking.in_region (Locking.pcs s i) = true ->
        Locking.in_region (Locking.pcs s' i) = false ->
        Locking.locked s' = false)
  /\ (forall s',
        Locking.step cfg env host s s' ->
        index (Locking.shared s') <> index (Locking.shared s)
        \/ commits (Locking.shared s') <> commits (Locking.shared s)
        \/ (exists p,
              has_path p (files (Locking.shared s)) = true
              /\ has_path p (files (Locking.shared s')) = false) ->
        exists i, Locking.in_region (Locking.pcs s i) = true
                  /\ Locking.locked s = true).
Proof.
  intros Hreach.
  pose proof (LockingFacts.reachable_exclusive cfg env host st0 s Hreach) as Hex.
  assert (Hheld : forall i, Locking.in_region (Locking.pcs s i) = true ->
                            Locking.locked s = true).
  { intros i Hi. destruct Hex as [[_ Hall]|(Hl & _)]; [|exact Hl].
    rewrite Hall in Hi. discriminate. }
  split; [|split; [exact Hheld|split; [|split]]].
  - intros i j Hi Hj. destruct Hex as [[_ Hall]|(_ & h & _ & Huniq)].
    + rewrite Hall in Hi. discriminate.
    + now rewrite (Huniq i Hi), (Huniq j Hj).
  - intros Hall. destruct Hex as [[Hl _]|(_ & h & Hh & _)]; [exact Hl|].
    rewrite Hall in Hh. discriminate.
  - intros s' i. apply LockingFacts.exit_releases.
  - intros s' Hstep Hmut.
    destruct (LockingFacts.mutation_inside cfg env host s s' Hstep Hmut) as [i Hi].
    exists i. split; [exact Hi|now apply (Hheld i)].
Qed.

Lemma lock_excludes_witness :
  exists s,
    Locking.reachable (Sample.cfg 10) Sample.workers Sample.hosts Sample.empty_disk s
    /\ Locking.in_region (Locking.pcs s 0) = true
    /\ Locking.in_region (Locking.pcs s 1) = false
    /\ Locking.locked s = true.
Proof.
  eassert (R : Locking.reachable (Sample.cfg 10) Sample.workers Sample.hosts
                 Sample.empty_disk _).
  { eapply LockingFacts.reachable_steps; [apply Locking.reach_init|].
    take (Locking.step_saved _ _ _ 0). take (Locking.step_measured _ _ _ 0).
    take (Locking.step_saved _ _ _ 1). take (Locking.step_measured _ _ _ 1).
    take (Locking.step_acquire _ _ _ 0). apply Locking.steps_none. }
  eexists. split; [exact R|]. split; [reflexivity|]. split; [reflexivity|].
  exact (proj1 (proj2 (lock_excludes _ _ _ _ _ R)) 0 eq_refl).
Defined.

(* ================================================================== *)
(** * Part III: further properties of the script *)
(* ================================================================== *)

(** ** The device list (line 16 and the check of line 209) *)

Section HostListFacts.

Lemma split_on_nonempty (sep : ascii) (s : str) : split_on sep s <> [].
Proof.
  destruct s as [|c s]; simpl; [discriminate|].
  destruct (Ascii.eqb c sep); [discriminate|].
  destruct (split_on sep s); discriminate.
Qed.

Lemma join_cons_head (sep c : ascii) (t : str) (ts : list str) :
  join sep ((c :: t) :: ts) = c :: join sep (t :: ts).
Proof. destruct ts; reflexivity. Qed.

Lemma join_split_on (sep : ascii) (s : str) : join sep (split_on sep s) = s.
Proof.
  induction s as [|c s IH]; [reflexivity|]. cbn [split_on].
  destruct (Ascii.eqb c sep) eqn:E.
  - apply Ascii.eqb_eq in E. subst c.
    destruct (split_on sep s) as [|t ts] eqn:Es.
    + now apply split_on_nonempty in Es.
    + cbn [join app]. cbn [join] in IH. now rewrite IH.
  - destruct (split_on sep s) as [|t ts] eqn:Es.
    + now apply split_on_nonempty in Es.
    + now rewrite join_cons_head, IH.
Qed.

Lemma split_on_fields (sep : ascii) (s : str) :
  Forall (fun field => ~ In sep field) (split_on sep s).
Proof.
  induction s as [|c s IH]; cbn [split_on].
  - constructor; [intros []|constructor].
  - destruct (Ascii.eqb c sep) eqn:E.
    + constructor; [intros []|exact IH].
    + destruct (split_on sep s) as [|t ts]; inversion IH; subst;
        constructor; try assumption; try constructor;
        intros [H|H]; try contradiction;
        subst; rewrite Ascii.eqb_refl in E; discriminate.
Qed.

Lemma no_routers_split (s : str) :
  no_routers (split_on "," s) = true <-> s = [].
Proof.
  split; [|intros ->; reflexivity].
  destruct s as [|c s]; [reflexivity|]. cbn [split_on].
  destruct (Ascii.eqb c ",").
  - destruct (split_on "," s) as [|t ts] eqn:Es; [|discriminate].
    now apply split_on_nonempty in Es.
  - destruct (split_on "," s) as [|t ts]; discriminate.
Qed.

End HostListFacts.

(** X1.  Whatever [ROUTER_HOSTS] holds, the list of line 16 is never empty,
    and the run stops at "No routers configured" exactly when the variable is
    unset or empty: a variable that holds only commas passes the check. *)
Theorem no_routers_iff_unset (v : option str) :
  load_router_hosts v <> []
  /\ (no_routers (load_router_hosts v) = true <-> getenv v = []).
Proof.
  split; [apply split_on_nonempty|apply no_routers_split].
Qed.

(** X2.  Joining the addresses of line 16 with commas gives the variable
    back, and no address holds a comma. *)
Theorem router_hosts_round_trip (v : option str) :
  join "," (load_router_hosts v) = getenv v
  /\ Forall (fun host => ~ In ","%char host) (load_router_hosts v).
Proof.
  split; [apply join_split_on|apply split_on_fields].
Qed.

(** ** Timestamps and snapshot names (lines 27-28 and 155-156) *)

Section TimestampFacts.

Lemma digit_inj (a b : nat) : digit a = digit b -> a mod 10 = b mod 10.
Proof.
  unfold digit. intros H. apply (f_equal nat_of_ascii) in H.
  pose proof (Nat.mod_upper_bound a 10). pose proof (Nat.mod_upper_bound b 10).
  rewrite !nat_ascii_embedding in H by lia. lia.
Qed.

Lemma pad2_inj (n m : nat) : n <= 99 -> m <= 99 -> pad2 n = pad2 m -> n = m.
Proof.
  unfold pad2. intros Hn Hm H.
  assert (H1 : digit (n / 10) = digit (m / 10)) by congruence.
  assert (H2 : digit n = digit m) by congruence.
  apply digit_inj in H1, H2.
  pose proof (Nat.div_mod_eq n 10). pose proof (Nat.div_mod_eq m 10).
  assert (n / 10 < 10) by (apply Nat.Div0.div_lt_upper_bound; lia).
  assert (m / 10 < 10) by (apply Nat.Div0.div_lt_upper_bound; lia).
  rewrite !Nat.mod_small in H1 by lia. lia.
Qed.

Lemma digits4 (n : nat) :
  (Z.of_nat n <= 9999)%Z ->
  n = 1000 * ((n / 1000) mod 10) + 100 * ((n / 100) mod 10)
      + 10 * ((n / 10) mod 10) + n mod 10.
Proof.
  intros Hn.
  pose proof (Nat.div_mod_eq n 10) as E0.
  pose proof (Nat.div_mod_eq (n / 10) 10) as E1.
  pose proof (Nat.div_mod_eq (n / 100) 10) as E2.
  rewrite Nat.Div0.div_div in E1, E2.
  change (10 * 10) with 100 in E1. change (100 * 10) with 1000 in E2.
  assert (H : n / 1000 < 10) by (apply Nat.Div0.div_lt_upper_bound; lia).
  rewrite (Nat.mod_small (n / 1000)) by exact H. lia.
Qed.

Lemma pad4_inj (n m : nat) :
  (Z.of_nat n <= 9999)%Z -> (Z.of_nat m <= 9999)%Z -> pad4 n = pad4 m -> n = m.
Proof.
  unfold pad4. intros Hn Hm H.
  assert (H1 : digit (n / 1000) = digit (m / 1000)) by congruence.
  assert (H2 : digit (n / 100) = digit (m / 100)) by congruence.
  assert (H3 : digit (n / 10) = digit (m / 10)) by congruence.
  assert (H4 : digit n = digit m) by congruence.
  apply digit_inj in H1, H2, H3, H4.
  rewrite (digits4 n Hn), (digits4 m Hm). congruence.
Qed.

(** The timestamp of a reading says which second it was, and nothing more. *)
Lemma get_timestamp_second (t1 t2 : datetime) :
  valid_datetime t1 -> valid_datetime t2 ->
  (get_timestamp t1 = get_timestamp t2 <-> to_second t1 = to_second t2).
Proof.
  intros (Hy1 & Hm1 & Hd1 & Hh1 & Hi1 & Hs1) (Hy2 & Hm2 & Hd2 & Hh2 & Hi2 & Hs2).
  unfold to_second, get_timestamp. split.
  - intros H.
    apply app_same_length_tail in H as [Hy H]; [|reflexivity].
    apply app_same_length_tail in H as [Hmo H]; [|reflexivity].
    apply app_same_length_tail in H as [Hd H]; [|reflexivity].
    apply app_inv_head in H.
    apply app_same_length_tail in H as [Hh H]; [|reflexivity].
    apply app_same_length_tail in H as [Hmi Hs]; [|reflexivity].
    rewrite (pad4_inj _ _ Hy1 Hy2 Hy),
            (pad2_inj (month t1) (month t2)),
            (pad2_inj (day t1) (day t2)),
            (pad2_inj (hour t1) (hour t2)),
            (pad2_inj (minute t1) (minute t2)),
            (pad2_inj (second t1) (second t2));
      try lia; try assumption; reflexivity.
  - intros H. injection H as -> -> -> -> -> ->. reflexivity.
Qed.

End TimestampFacts.

(** X3.  For clock readings whose fields are in range, two timestamps are
    equal exactly when the readings fall in the same second: the stamp is
    fifteen characters long, keeps year, month, day, hour, minute and second,
    and drops the microseconds. *)
Theorem get_timestamp_same_second (t1 t2 : datetime) :
  valid_datetime t1 -> valid_datetime t2 ->
  List.length (get_timestamp t1) = 15
  /\ (get_timestamp t1 = get_timestamp t2 <-> to_second t1 = to_second t2).
Proof.
  intros H1 H2. split; [reflexivity|]. now apply get_timestamp_second.
Qed.

Lemma get_timestamp_same_second_witness :
  valid_datetime (Sample.clock 1 100)
  /\ valid_datetime (Sample.clock 1 900)
  /\ get_timestamp (Sample.clock 1 100) = get_timestamp (Sample.clock 1 900).
Proof.
  assert (V1 : valid_datetime (Sample.clock 1 100))
    by (unfold valid_datetime; simpl; lia).
  assert (V2 : valid_datetime (Sample.clock 1 900))
    by (unfold valid_datetime; simpl; lia).
  split; [exact V1|]. split; [exact V2|].
  exact (proj2 (proj2 (get_timestamp_same_second _ _ V1 V2)) eq_refl).
Defined.

Section ResultFacts.

(** What a success says about the worker that returned it. *)
Lemma backup_router_success (env : device_env) (cfg : config)
    (hostname : str) (st : store) (d : details) :
  fst (backup_router env cfg hostname st) = Returned (Success d) ->
  exists config_output error_output,
    client_error env = None
    /\ session env = inr (config_output, error_output)
    /\ makedirs_error env = None
    /\ write_error env = None
    /\ d_hostname d
       = ConfigParser.sanitize (ConfigParser.extract_hostname hostname config_output)
    /\ d_ip d = strip hostname
    /\ d_timestamp d = get_timestamp (stamp_time env)
    /\ d_filename d = d_hostname d ++ lit "_" ++ d_timestamp d ++ lit ".conf".
Proof.
  intros H.
  destruct (client_error env) as [e|] eqn:Hc.
  { unfold backup_router, fetch_and_save, save_config in H. rewrite Hc in H.
    discriminate. }
  destruct (session env) as [x|[config_output error_output]] eqn:Hs.
  { unfold backup_router, fetch_and_save, save_config in H. rewrite Hc, Hs in H.
    destruct x; discriminate. }
  destruct (makedirs_error env) as [e|] eqn:Hm.
  { unfold backup_router, fetch_and_save, save_config in H.
    rewrite Hc, Hs, Hm in H. discriminate. }
  destruct (write_error env) as [[e|e on_disk]|] eqn:Hw;
    try (unfold backup_router, fetch_and_save, save_config in H;
         rewrite Hc, Hs, Hm, Hw in H; discriminate).
  unfold backup_router in H.
  rewrite (fetch_and_save_ok env cfg hostname st config_output error_output
             Hc Hs Hm Hw) in H.
  cbn [fst] in H. injection H as <-.
  exists config_output, error_output. repeat split.
Qed.

End ResultFacts.

(** X4.  Two workers that succeed, with clock readings in range, give their
    snapshots the same file name exactly when they found the same identity
    and wrote within the same second; the addresses and the rest of the
    configurations play no part. *)
Theorem filename_collision_iff (env1 env2 : device_env) (cfg : config)
    (host1 host2 : str) (st1 st2 : store) (d1 d2 : details) :
  valid_datetime (stamp_time env1) ->
  valid_datetime (stamp_time env2) ->
  fst (backup_router env1 cfg host1 st1) = Returned (Success d1) ->
  fst (backup_router env2 cfg host2 st2) = Returned (Success d2) ->
  (d_filename d1 = d_filename d2
   <-> d_hostname d1 = d_hostname d2
       /\ to_second (stamp_time env1) = to_second (stamp_time env2)).
Proof.
  intros V1 V2 H1 H2.
  apply backup_router_success in H1 as (c1 & e1 & _ & _ & _ & _ & _ & _ & T1 & F1).
  apply backup_router_success in H2 as (c2 & e2 & _ & _ & _ & _ & _ & _ & T2 & F2).
  rewrite F1, F2, T1, T2, <- (get_timestamp_second _ _ V1 V2).
  split.
  - intros E. apply app_same_length_tail in E as [E1 E2].
    + split; [exact E1|]. apply app_inv_head in E2.
      now apply app_inv_tail in E2.
    + rewrite !length_app, !get_timestamp_length. reflexivity.
  - intros [-> ->]. reflexivity.
Qed.

Lemma filename_collision_iff_witness :
  let a := Sample.device (lit "hostname R1 ! site A") (Sample.clock 1 100) in
  let b := Sample.device (lit "hostname R1 ! site B") (Sample.clock 1 900) in
  exists da db,
    fst (backup_router a (Sample.cfg 10) (lit "10.0.0.1") Sample.empty_disk)
    = Returned (Success da)
    /\ fst (backup_router b (Sample.cfg 10) (lit "10.0.0.2") Sample.empty_disk)
       = Returned (Success db)
    /\ d_ip da <> d_ip db
    /\ d_filename da = d_filename db.
Proof.
  intros a b.
  assert (V1 : valid_datetime (stamp_time a))
    by (unfold valid_datetime; simpl; lia).
  assert (V2 : valid_datetime (stamp_time b))
    by (unfold valid_datetime; simpl; lia).
  eexists. eexists.
  split; [reflexivity|]. split; [reflexivity|]. split; [discriminate|].
  exact (proj2 (filename_collision_iff a b (Sample.cfg 10) (lit "10.0.0.1")
                  (lit "10.0.0.2") Sample.empty_disk Sample.empty_disk _ _
                  V1 V2 eq_refl eq_refl)
               (conj eq_refl eq_refl)).
Defined.

(** ** Identity and paths (lines 136-157 and 65) *)

Section IdentityFacts.
Import ConfigParser.

(** Every token of a line is a non-empty run of visible characters. *)
Lemma py_split_tokens (s : str) :
  Forall (fun t => t <> [] /\ Forall (fun c => isspace c = false) t) (py_split s).
Proof.
  induction s as [|c s IH]; cbn [py_split]; [constructor|].
  destruct (isspace c) eqn:Hc; [exact IH|].
  destruct s as [|d s'].
  - repeat constructor; [discriminate|exact Hc].
  - destruct (isspace d) eqn:Hd.
    + constructor; [|exact IH]. repeat constructor; [discriminate|exact Hc].
    + destruct (py_split (d :: s')) as [|t ts].
      * repeat constructor; [discriminate|exact Hc].
      * inversion IH as [|? ? [_ Ht] Hts]; subst.
        constructor; [|exact Hts]. split; [discriminate|].
        now constructor.
Qed.

Lemma sanitize_char_twice (c : ascii) :
  flat_map sanitize_char (sanitize_char c) = sanitize_char c.
Proof. destruct c as [[] [] [] [] [] [] [] []]; reflexivity. Qed.

Lemma sanitize_char_short (c : ascii) : List.length (sanitize_char c) <= 1.
Proof. destruct c as [[] [] [] [] [] [] [] []]; vm_compute; lia. Qed.

Lemma sanitize_char_clean_same (c : ascii) :
  reserved c = false -> sanitize_char c = [c].
Proof. destruct c as [[] [] [] [] [] [] [] []]; vm_compute; congruence. Qed.







End IdentityFacts.

Section IdentityUse.
Import ConfigParser.




End IdentityUse.

(** X5.  When some line of the configuration names the host, the extracted
    identity is one whitespace-delimited token of that line: it is not empty
    and holds no whitespace (so no line break either). *)
Theorem extracted_name_is_token (hostname config_output line : str) :
  find ConfigParser.names_host (split_on nl config_output) = Some line ->
  let name := ConfigParser.extract_hostname hostname config_output in
  In name (py_split line)
  /\ name <> []
  /\ Forall (fun c => isspace c = false) name.
Proof.
  intros Hfind name.
  assert (Hname : name = nth 1 (py_split line) []).
  { unfold name, ConfigParser.extract_hostname.
    now rewrite ConfigParserFacts.scan_lines_find, Hfind. }
  apply find_some in Hfind as [_ Hline].
  unfold ConfigParser.names_host in Hline.
  pose proof (py_split_tokens line) as Htok.
  destruct (py_split line) as [|t [|u ts]]; try discriminate.
  simpl in Hname. subst name. rewrite Hname.
  inversion Htok as [|? ? _ Hrest]; subst.
  inversion Hrest as [|? ? [Hne Hvis] _]; subst.
  split; [right; now left|]. split; assumption.
Qed.

Lemma extracted_name_is_token_witness :
  let config_output :=
    lit "! hostname Old" ++ [nl] ++ lit "  HostName   Router-42  x" in
  find ConfigParser.names_host (split_on nl config_output)
  = Some (lit "  HostName   Router-42  x")
  /\ ConfigParser.extract_hostname (lit "10.0.0.1") config_output = lit "Router-42"
  /\ Forall (fun c => isspace c = false)
       (ConfigParser.extract_hostname (lit "10.0.0.1") config_output).
Proof.
  intros config_output.
  assert (H : find ConfigParser.names_host (split_on nl config_output)
              = Some (lit "  HostName   Router-42  x")) by reflexivity.
  split; [exact H|]. split; [reflexivity|].
  exact (proj2 (proj2 (extracted_name_is_token (lit "10.0.0.1") config_output _ H))).
Defined.

(** X6.  Sanitizing is idempotent, never makes the identity longer, and
    leaves an identity without any of the ten characters as it is (a name made
    of dots only, for one, passes unchanged). *)
Theorem sanitize_idempotent (device_hostname : str) :
  ConfigParser.sanitize (ConfigParser.sanitize device_hostname)
  = ConfigParser.sanitize device_hostname
  /\ List.length (ConfigParser.sanitize device_hostname)
     <= List.length device_hostname
  /\ (Forall (fun c => ConfigParser.reserved c = false) device_hostname ->
      ConfigParser.sanitize device_hostname = device_hostname).
Proof.
  rewrite !ConfigParserFacts.sanitize_flat_map. split; [|split].
  - rewrite flat_map_flat_map. apply flat_map_ext, sanitize_char_twice.
  - induction device_hostname as [|c s IH]; cbn [flat_map]; [lia|].
    rewrite length_app. pose proof (sanitize_char_short c). simpl. lia.
  - induction 1 as [|c s Hc _ IH]; cbn [flat_map]; [reflexivity|].
    now rewrite (sanitize_char_clean_same c Hc), IH.
Qed.

Section IndexFacts.







End IndexFacts.



(** ** Retention, further (lines 73-99) *)

Section RetentionMore.

Variable matches : str -> str -> bool.
Variable remove_error : str -> option str.
Variable cfg : config.
Variable hostname : str.

Local Abbreviation snaps := (snapshots matches cfg hostname).
Local Abbreviation found st := (sort_by f_mtime (snaps st)).
Local Abbreviation cleanup := (cleanup_old_backups matches remove_error cfg hostname).
Local Abbreviation limit := (MAX_BACKUPS cfg).

(** Whatever the loop meets, what it leaves is what was there minus some of
    the paths it was given. *)
Lemma delete_loop_filter (ps : list str) : forall st,
  exists removed,
    incl removed ps
    /\ files (fst (delete_loop remove_error ps st))
       = filter (survives removed) (files st).
Proof.
  induction ps as [|p ps IH]; intros st; cbn [delete_loop].
  - exists []. split; [apply incl_refl|].
    symmetry. apply filter_all. intros; apply survives_nil.
  - unfold os_remove.
    destruct (remove_error p); [|destruct (has_path p (files st))].
    + exists []. split; [intros x []|].
      symmetry. apply filter_all. intros; apply survives_nil.
    + destruct (IH (print (lit "Deleted old backup: " ++ p)
                      (set_files (filter (fun f => negb (str_eqb (f_path f) p))
                                    (files st)) st)))
        as (removed & Hincl & Hfiles).
      exists (p :: removed). split.
      * intros x [<-|Hx]; [now left|right; now apply Hincl].
      * rewrite Hfiles. cbn [files print set_files]. rewrite filter_filter.
        apply filter_ext. intros f. now rewrite survives_cons.
    + exists []. split; [intros x []|].
      symmetry. apply filter_all. intros; apply survives_nil.
Qed.

Lemma slice_to_firstn {B : Type} (stop : Z) (l : list B) :
  exists j, slice_to stop l = firstn j l.
Proof. unfold slice_to. eexists. reflexivity. Qed.

Lemma cleanup_filter (st : store) :
  exists removed,
    incl removed (map f_path (snaps st))
    /\ files (cleanup st) = filter (survives removed) (files st).
Proof.
  assert (Hsame : exists removed,
             incl removed (map f_path (snaps st))
             /\ files st = filter (survives removed) (files st)).
  { exists []. split; [intros x []|].
    symmetry. apply filter_all. intros; apply survives_nil. }
  rewrite cleanup_unfold.
  destruct (negb _); [exact Hsame|]. destruct (_ >? _)%Z; [|exact Hsame].
  destruct (slice_to_firstn (- limit) (found st)) as [j ->].
  destruct (delete_loop_filter (map f_path (firstn j (found st))) st)
    as (removed & Hincl & Hfiles).
  exists removed. split.
  - intros x Hx. apply Hincl, in_map_iff in Hx as (f & <- & Hf).
    apply in_map. apply in_firstn in Hf.
    eapply Permutation_in; [apply sort_by_perm|exact Hf].
  - destruct (delete_loop _ _ st) as [st' [e|]]; exact Hfiles.
Qed.

(** With distinct paths, a pass removes a front part of the snapshots in
    the order of their age, whatever the limit. *)
Lemma cleanup_prefix (st : store) :
  NoDup (map f_path (files st)) ->
  exists k,
    files (cleanup st)
    = filter (survives (map f_path (firstn k (found st)))) (files st).
Proof.
  intros Hnd.
  assert (Hsame : exists k,
             files st
             = filter (survives (map f_path (firstn k (found st)))) (files st)).
  { exists 0. symmetry. apply filter_all. intros; apply survives_nil. }
  rewrite cleanup_unfold.
  destruct (negb _); [exact Hsame|]. destruct (_ >? _)%Z; [|exact Hsame].
  destruct (slice_to_firstn (- limit) (found st)) as [j ->].
  destruct (delete_loop_spec remove_error (map f_path (firstn j (found st))) st)
    as (k & Hk & _).
  { rewrite <- firstn_map. apply nodup_firstn. now apply found_nodup. }
  { intros p Hp. apply in_map_iff in Hp as (f & <- & Hf).
    eapply found_on_disk, in_firstn; eauto. }
  exists (Nat.min k j).
  rewrite firstn_map, firstn_firstn in Hk.
  destruct (delete_loop _ _ st) as [st' [e|]]; exact Hk.
Qed.

Lemma same_path_same_file (l : list file) (a b : file) :
  NoDup (map f_path l) -> In a l -> In b l -> f_path a = f_path b -> a = b.
Proof.
  induction l as [|x l IH]; cbn [map]; intros Hnd Ha Hb E; [contradiction|].
  inversion Hnd as [|? ? Hx Hl]; subst.
  destruct Ha as [->|Ha], Hb as [->|Hb]; try reflexivity.
  - exfalso. apply Hx. rewrite E. now apply in_map.
  - exfalso. apply Hx. rewrite <- E. now apply in_map.
  - now apply IH.
Qed.

(** Whether a snapshot is in the removed front part. *)
Lemma removed_in_front (st : store) (k : nat) (f : file) :
  NoDup (map f_path (files st)) ->
  In f (snaps st) ->
  (survives (map f_path (firstn k (found st))) f = false
   <-> In f (firstn k (found st))).
Proof.
  intros Hnd Hf.
  assert (Hfound : In f (found st)).
  { eapply Permutation_in; [symmetry; apply sort_by_perm|exact Hf]. }
  split.
  - intros H. destruct (survives _ f) eqn:E; [discriminate|].
    assert (Hin : In (f_path f) (map f_path (firstn k (found st)))).
    { destruct (in_dec (list_eq_dec Ascii.ascii_dec) (f_path f)
                  (map f_path (firstn k (found st)))) as [Hin|Hout];
        [exact Hin|].
      apply survives_spec in Hout. congruence. }
    apply in_map_iff in Hin as (g & Hg & Hgin).
    rewrite <- (same_path_same_file (found st) g f); auto.
    + now apply found_nodup.
    + eapply in_firstn; eauto.
  - intros H. destruct (survives _ f) eqn:E; [|reflexivity].
    apply survives_spec in E. exfalso. apply E. now apply in_map.
Qed.

Lemma cleanup_oldest_first_aux (st : store) (old new : file) :
  NoDup (map f_path (files st)) ->
  In old (snaps st) -> In new (snaps st) ->
  (f_mtime old < f_mtime new)%Z ->
  ~ In new (files (cleanup st)) -> ~ In old (files (cleanup st)).
Proof.
  intros Hnd Hold Hnew Hlt Hgone.
  destruct (cleanup_prefix st Hnd) as [k Hk]. rewrite Hk in *.
  assert (Hdisk : forall f, In f (snaps st) -> In f (files st)).
  { intros f Hf. unfold snapshots, glob in Hf. apply filter_In in Hf. tauto. }
  assert (Hn : In new (firstn k (found st))).
  { apply removed_in_front; [assumption..|].
    destruct (survives _ new) eqn:E; [|reflexivity].
    exfalso. apply Hgone, filter_In. split; [now apply Hdisk|exact E]. }
  assert (Ho : In old (firstn k (found st))).
  { assert (Hfound : In old (found st)).
    { eapply Permutation_in; [symmetry; apply sort_by_perm|exact Hold]. }
    rewrite <- (firstn_skipn k (found st)) in Hfound.
    apply in_app_or in Hfound as [H|H]; [exact H|].
    pose proof (sorted_app_le (firstn k (found st)) (skipn k (found st))) as S.
    rewrite firstn_skipn in S.
    specialize (S (sort_by_sorted f_mtime (snaps st)) new old Hn H). lia. }
  intros Hin. apply filter_In in Hin as [_ Hin].
  apply removed_in_front in Ho; [congruence|assumption..].
Qed.

(** With a limit of at least one, the strictly newest file on disk is
    never deleted, refusals or not. *)
Lemma cleanup_spares_newest (st : store) (f : file) :
  (1 <= limit)%Z ->
  NoDup (map f_path (files st)) ->
  In f (files st) ->
  (forall g, In g (files st) -> g <> f -> (f_mtime g < f_mtime f)%Z) ->
  In f (files (cleanup st)).
Proof.
  intros Hl Hnd Hf Hnew.
  destruct (in_dec (list_eq_dec Ascii.ascii_dec) (f_path f)
              (map f_path (snaps st))) as [Hin|Hout].
  2:{ destruct (cleanup_filter st) as (removed & Hincl & ->).
      apply filter_In. split; [exact Hf|]. apply survives_spec.
      intros H. apply Hout, Hincl, H. }
  assert (Hsnap : In f (snaps st)).
  { apply in_map_iff in Hin as (g & Hg & Hgin).
    assert (Hgd : In g (files st)).
    { unfold snapshots, glob in Hgin. apply filter_In in Hgin. tauto. }
    now rewrite <- (same_path_same_file (files st) g f Hnd Hgd Hf Hg). }
  destruct (path_exists (path_join (BACKUP_DIR cfg) hostname) st) eqn:Hd.
  2:{ rewrite cleanup_unfold, Hd. exact Hf. }
  destruct (Z_le_gt_dec (Z.of_nat (List.length (snaps st))) limit) as [Hn|Hn].
  { now rewrite cleanup_within_limit. }
  rewrite <- (sort_by_length f_mtime) in Hn.
  destruct (cleanup_deletes matches remove_error cfg hostname st)
    as (k & Hk & Hcase); try lia; try assumption.
  assert (Hkn : k < List.length (found st)) by (destruct Hcase; lia).
  rewrite Hk. apply filter_In. split; [exact Hf|].
  destruct (survives (map f_path (firstn k (found st))) f) eqn:E; [reflexivity|].
  exfalso. apply removed_in_front in E; [|assumption..].
  destruct (skipn k (found st)) as [|y rest] eqn:Es.
  { apply (f_equal (@List.length file)) in Es. rewrite length_skipn in Es.
    simpl in Es. lia. }
  assert (Hy : In y (skipn k (found st))) by (rewrite Es; now left).
  pose proof (sorted_app_le (firstn k (found st)) (skipn k (found st))) as S.
  rewrite firstn_skipn in S.
  specialize (S (sort_by_sorted f_mtime (snaps st)) f y E Hy).
  assert (Hyd : In y (files st)).
  { assert (Hyf : In y (found st)).
    { rewrite <- (firstn_skipn k (found st)). apply in_or_app. now right. }
    eapply Permutation_in in Hyf; [|apply sort_by_perm].
    unfold snapshots, glob in Hyf. apply filter_In in Hyf. tauto. }
  assert (Hne : y <> f).
  { intros ->. pose proof (found_nodup matches cfg hostname st Hnd) as Hfd.
    apply NoDup_map_inv in Hfd. rewrite <- (firstn_skipn k (found st)) in Hfd.
    exact (NoDup_app_disjoint _ _ f Hfd E Hy). }
  specialize (Hnew y Hyd Hne). lia.
Qed.

End RetentionMore.

(** ** The pattern of line 82 *)

Section GlobFacts.













End GlobFacts.

(** X11.  A retention pass only ever removes snapshot files of its own
    identity: every file it leaves was there before, unchanged; every file
    the pattern of line 82 does not match is still there; and directories,
    index and history are untouched.  This holds for every limit and every
    refusal of the operating system. *)
Theorem cleanup_touches_only_snapshots (matches : str -> str -> bool)
    (remove_error : str -> option str) (cfg : config) (hostname : str)
    (st : store) :
  let after := cleanup_old_backups matches remove_error cfg hostname st in
  let pattern :=
    path_join (path_join (BACKUP_DIR cfg) hostname) (hostname ++ lit "_*.conf") in
  (forall f, In f (files after) -> In f (files st))
  /\ (forall f, In f (files st) -> matches pattern (f_path f) = false ->
                In f (files after))
  /\ dirs after = dirs st /\ index after = index st /\ commits after = commits st.
Proof.
  intros after pattern.
  destruct (cleanup_filter matches remove_error cfg hostname st)
    as (removed & Hincl & Hfiles).
  split; [|split; [|apply cleanup_rest]].
  - intros f Hf. unfold after in Hf. rewrite Hfiles in Hf.
    apply filter_In in Hf. tauto.
  - intros f Hf Hno. unfold after. rewrite Hfiles.
    apply filter_In. split; [exact Hf|]. apply survives_spec. intros Hin.
    apply Hincl, in_map_iff in Hin as (g & Hg & Hgin).
    unfold snapshots, glob in Hgin. apply filter_In in Hgin as [_ Hm].
    fold pattern in Hm. rewrite Hg in Hm. congruence.
Qed.



(** X13.  On a disk with distinct paths a pass deletes oldest first, for
    every limit and every refusal: when a snapshot is gone after the pass,
    every snapshot of the identity with an earlier modification time is gone
    too. *)
Theorem cleanup_oldest_first (matches : str -> str -> bool)
    (remove_error : str -> option str) (cfg : config) (hostname : str)
    (st : store) (old new : file) :
  NoDup (map f_path (files st)) ->
  In old (snapshots matches cfg hostname st) ->
  In new (snapshots matches cfg hostname st) ->
  (f_mtime old < f_mtime new)%Z ->
  ~ In new (files (cleanup_old_backups matches remove_error cfg hostname st)) ->
  ~ In old (files (cleanup_old_backups matches remove_error cfg hostname st)).
Proof. apply cleanup_oldest_first_aux. Qed.

Lemma cleanup_oldest_first_witness :
  let old := Sample.snapshot "R1_20240101_000000.conf" 1 in
  let new := Sample.snapshot "R1_20240102_000000.conf" 2 in
  let after :=
    cleanup_old_backups star_matches Sample.no_refusal (Sample.cfg 1)
      (lit "R1") Sample.disk in
  In old (files Sample.disk) /\ ~ In new (files after) /\ ~ In old (files after).
Proof.
  intros old new after.
  assert (Hnd : NoDup (map f_path (files Sample.disk)))
    by (apply distinct_NoDup; reflexivity).
  assert (Hold : In old (snapshots star_matches (Sample.cfg 1) (lit "R1") Sample.disk))
    by (right; left; reflexivity).
  assert (Hnew : In new (snapshots star_matches (Sample.cfg 1) (lit "R1") Sample.disk))
    by (right; right; left; reflexivity).
  assert (Hlt : (f_mtime old < f_mtime new)%Z) by (simpl; lia).
  assert (Hgone : ~ In new (files after)).
  { intros [H|[]]. discriminate H. }
  split; [right; left; reflexivity|]. split; [exact Hgone|].
  exact (cleanup_oldest_first star_matches Sample.no_refusal (Sample.cfg 1)
           (lit "R1") Sample.disk old new Hnd Hold Hnew Hlt Hgone).
Defined.

(** ** One device, further (lines 101-206) *)

Section WorkerMore.

Lemma write_file_distinct (p data : str) (mtime : Z) (fs : list file) :
  NoDup (map f_path fs) -> NoDup (map f_path (write_file p data mtime fs)).
Proof.
  intros Hnd. unfold write_file. destruct (has_path p fs) eqn:E.
  - rewrite map_map.
    erewrite map_ext; [exact Hnd|]. intros g. cbn beta.
    destruct (str_eqb (f_path g) p) eqn:Eg; [|reflexivity].
    apply str_eqb_eq in Eg. now rewrite Eg.
  - rewrite map_app. cbn [map f_path].
    apply NoDup_app; [exact Hnd|repeat constructor; intros []|].
    intros a Ha [<-|[]]. apply has_path_In in Ha. congruence.
Qed.

Lemma write_file_In_inv (p data : str) (mtime : Z) (fs : list file) (g : file) :
  In g (write_file p data mtime fs) ->
  g = {| f_path := p; f_mtime := mtime; f_data := data |} \/ In g fs.
Proof.
  unfold write_file. destruct (has_path p fs).
  - intros H. apply in_map_iff in H as (h & Hh & Hin).
    destruct (str_eqb (f_path h) p); [left|right]; congruence.
  - intros H. apply in_app_or in H as [H|[H|[]]]; [now right|now left].
Qed.

(** The store a worker has when it reaches the [with] statement. *)
Lemma fetch_and_save_saved (env : device_env) (cfg : config)
    (hostname : str) (st : store) (config_output error_output : str) :
  client_error env = None ->
  session env = inr (config_output, error_output) ->
  makedirs_error env = None ->
  write_error env = None ->
  let device_hostname :=
    ConfigParser.sanitize (ConfigParser.extract_hostname hostname config_output) in
  let hostname_dir := path_join (BACKUP_DIR cfg) device_hostname in
  let filename :=
    device_hostname ++ lit "_" ++ get_timestamp (stamp_time env) ++ lit ".conf" in
  let saved := snd (fetch_and_save env cfg hostname st) in
  files saved
  = write_file (path_join hostname_dir filename) config_output (write_mtime env)
      (files st)
  /\ path_exists hostname_dir saved = true
  /\ snd (backup_router env cfg hostname st)
     = critical_section env cfg filename device_hostname saved.
Proof.
  intros Hc Hs Hm Hw device_hostname hostname_dir filename saved.
  pose proof (fetch_and_save_ok env cfg hostname st config_output error_output
                Hc Hs Hm Hw) as Hfetch.
  destruct (save_config_ok env cfg hostname st config_output error_output
              Hc Hs Hm Hw) as (_ & Hfiles & Hdir).
  cbv zeta in Hfetch, Hfiles, Hdir.
  fold device_hostname hostname_dir filename in Hfetch, Hfiles, Hdir.
  unfold saved, backup_router. rewrite Hfetch.
  cbn [snd files print d_filename d_hostname].
  split; [exact Hfiles|]. split; [exact Hdir|reflexivity].
Qed.

(** A worker that does not return a success ended in lines 102-160. *)
Lemma backup_router_failed (env : device_env) (cfg : config)
    (hostname : str) (st : store) :
  (forall d, fst (backup_router env cfg hostname st) <> Returned (Success d)) ->
  snd (backup_router env cfg hostname st) = snd (save_config env cfg hostname st)
  /\ (client_error env <> None
      \/ (exists x, session env = inl x)
      \/ makedirs_error env <> None
      \/ write_error env <> None).
Proof.
  intros H.
  destruct (client_error env) as [e|] eqn:Hc.
  { split; [|left; discriminate].
    unfold backup_router, fetch_and_save, save_config. now rewrite Hc. }
  destruct (session env) as [x|[config_output error_output]] eqn:Hs.
  { split; [|right; left; now exists x].
    unfold backup_router, fetch_and_save, save_config. rewrite Hc, Hs.
    now destruct x. }
  destruct (makedirs_error env) as [e|] eqn:Hm.
  { split; [|right; right; left; discriminate].
    unfold backup_router, fetch_and_save, save_config. now rewrite Hc, Hs, Hm. }
  destruct (write_error env) as [[e|e on_disk]|] eqn:Hw.
  - split; [|right; right; right; discriminate].
    unfold backup_router, fetch_and_save, save_config. now rewrite Hc, Hs, Hm, Hw.
  - split; [|right; right; right; discriminate].
    unfold backup_router, fetch_and_save, save_config. now rewrite Hc, Hs, Hm, Hw.
  - exfalso. eapply H. unfold backup_router.
    rewrite (fetch_and_save_ok env cfg hostname st config_output error_output
               Hc Hs Hm Hw). reflexivity.
Qed.

(** What lines 102-160 leave on disk: the files as they were, or with one
    file written. *)
Lemma save_config_files (env : device_env) (cfg : config)
    (hostname : str) (st : store) :
  files (snd (save_config env cfg hostname st)) = files st
  \/ exists p data,
       files (snd (save_config env cfg hostname st))
       = write_file p data (write_mtime env) (files st).
Proof.
  unfold save_config.
  destruct (client_error env); [now left|].
  destruct (session env) as [x|[config_output error_output]].
  { left. now destruct x. }
  destruct (makedirs_error env).
  { left. now destruct (nonempty error_output). }
  destruct (write_error env) as [[e|e on_disk]|].
  - left. unfold makedirs. destruct (nonempty error_output);
      destruct (existsb _ _); reflexivity.
  - right. do 2 eexists. unfold makedirs. destruct (nonempty error_output);
      destruct (existsb _ _); reflexivity.
  - right. do 2 eexists. unfold makedirs. destruct (nonempty error_output);
      destruct (existsb _ _); reflexivity.
Qed.

(** Unless [write] itself fails, a worker that ends in lines 102-160 leaves
    the files as they were. *)
Lemma save_config_untouched (env : device_env) (cfg : config)
    (hostname : str) (st : store) :
  (forall e on_disk, write_error env <> Some (WriteFails e on_disk)) ->
  (forall w, fst (save_config env cfg hostname st) <> inr w) ->
  files (snd (save_config env cfg hostname st)) = files st.
Proof.
  unfold save_config. intros Hw Hno.
  destruct (client_error env); [reflexivity|].
  destruct (session env) as [x|[config_output error_output]].
  { now destruct x. }
  destruct (makedirs_error env).
  { now destruct (nonempty error_output). }
  destruct (write_error env) as [[e|e on_disk]|].
  - unfold makedirs. destruct (nonempty error_output);
      destruct (existsb _ _); reflexivity.
  - exfalso. now apply (Hw e on_disk).
  - exfalso. eapply Hno. reflexivity.
Qed.

(** A [write] that fails leaves the snapshot file behind, with what reached
    the disk. *)
Lemma save_config_torn (env : device_env) (cfg : config)
    (hostname : str) (st : store) (config_output error_output e on_disk : str) :
  client_error env = None ->
  session env = inr (config_output, error_output) ->
  makedirs_error env = None ->
  write_error env = Some (WriteFails e on_disk) ->
  let device_hostname :=
    ConfigParser.sanitize (ConfigParser.extract_hostname hostname config_output) in
  let filename :=
    device_hostname ++ lit "_" ++ get_timestamp (stamp_time env) ++ lit ".conf" in
  let filepath := path_join (path_join (BACKUP_DIR cfg) device_hostname) filename in
  save_config env cfg hostname st
  = (inl (Returned (Failure (lit "An error occurred with " ++ hostname ++ lit ": " ++ e))),
     snd (save_config env cfg hostname st))
  /\ files (snd (save_config env cfg hostname st))
     = write_file filepath on_disk (write_mtime env) (files st).
Proof.
  intros Hc Hs Hm Hw device_hostname filename filepath.
  unfold save_config. rewrite Hc, Hs, Hm, Hw.
  fold device_hostname. fold filename. fold filepath.
  split; [reflexivity|]. cbn [snd handle files print set_files].
  unfold makedirs. destruct (nonempty error_output);
    destruct (existsb _ _); reflexivity.
Qed.

End WorkerMore.

(** X8.  A worker that does not return a success, because the client, the
    session, the directory or the write failed, stages nothing, commits
    nothing and takes no path away.  It leaves the files exactly as it found
    them unless [write] failed after [open] had created or emptied the
    snapshot file: then that file is on disk, holding what got through, and
    is in no commit. *)
Theorem failed_worker_leaves_store (env : device_env) (cfg : config)
    (hostname : str) (st : store) :
  (forall d, fst (backup_router env cfg hostname st) <> Returned (Success d)) ->
  let after := snd (backup_router env cfg hostname st) in
  index after = index st
  /\ commits after = commits st
  /\ (forall p, has_path p (files st) = true -> has_path p (files after) = true)
  /\ ((forall e on_disk, write_error env <> Some (WriteFails e on_disk)) ->
      files after = files st)
  /\ (forall e on_disk config_output error_output,
        client_error env = None ->
        session env = inr (config_output, error_output) ->
        makedirs_error env = None ->
        write_error env = Some (WriteFails e on_disk) ->
        let device_hostname :=
          ConfigParser.sanitize
            (ConfigParser.extract_hostname hostname config_output) in
        let filename :=
          device_hostname ++ lit "_" ++ get_timestamp (stamp_time env)
          ++ lit ".conf" in
        files after
        = write_file
            (path_join (path_join (BACKUP_DIR cfg) device_hostname) filename)
            on_disk (write_mtime env) (files st)).
Proof.
  intros Hfail after.
  destruct (backup_router_failed env cfg hostname st Hfail) as [Hsnd _].
  destruct (save_config_frame env cfg hostname st) as (Hix & Hco & Hkeep).
  unfold after. rewrite Hsnd.
  split; [exact Hix|]. split; [exact Hco|]. split; [exact Hkeep|]. split.
  - intros Hw. apply save_config_untouched; [exact Hw|].
    intros w Hsave.
    destruct (save_config env cfg hostname st) as [o st1] eqn:E.
    cbn [fst] in Hsave. subst o.
    unfold backup_router, fetch_and_save in Hfail, Hsnd. rewrite E in Hfail, Hsnd.
    cbn [snd] in Hsnd.
    destruct (measure env hostname w st1) as [[r|d] st2] eqn:M.
    + unfold measure in M.
      destruct (getsize (l_filepath w) (files st1)); [discriminate|].
      cbn [handle] in M. injection M as _ <-. cbn [snd] in Hsnd.
      apply (f_equal stdout) in Hsnd. cbn [stdout print] in Hsnd.
      apply (f_equal (@List.length str)) in Hsnd.
      rewrite length_app in Hsnd. simpl in Hsnd. lia.
    + now apply (Hfail d).
  - intros e on_disk config_output error_output Hc Hs Hm Hw. cbv zeta.
    apply (save_config_torn env cfg hostname st config_output error_output
             e on_disk Hc Hs Hm Hw).
Qed.

Lemma failed_worker_leaves_store_witness :
  let locked_out :=
    backup_router Sample.device_locked_out (Sample.cfg 10) (lit "10.0.0.2")
      Sample.disk in
  let disk_full :=
    backup_router (Sample.device_disk_full (lit "hostname R1") (Sample.clock 1 0))
      (Sample.cfg 10) (lit "10.0.0.1") Sample.disk in
  (exists e, fst locked_out = Returned (Failure e))
  /\ files (snd locked_out) = files Sample.disk
  /\ index (snd locked_out) = index Sample.disk
  /\ fst disk_full
     = Returned (Failure (lit "An error occurred with 10.0.0.1: [Errno 28] No space left on device"))
  /\ map f_data (files (snd disk_full))
     = map f_data (files Sample.disk) ++ [lit "host"]
  /\ commits (snd disk_full) = commits Sample.disk.
Proof.
  intros locked_out disk_full.
  destruct (failed_worker_leaves_store Sample.device_locked_out (Sample.cfg 10)
              (lit "10.0.0.2") Sample.disk) as (Hix & _ & _ & Hfiles & _).
  { intros d H. discriminate H. }
  destruct (failed_worker_leaves_store
              (Sample.device_disk_full (lit "hostname R1") (Sample.clock 1 0))
              (Sample.cfg 10) (lit "10.0.0.1") Sample.disk)
    as (_ & Hco & _ & _ & Htorn).
  { intros d H. discriminate H. }
  split; [eexists; reflexivity|].
  split; [apply Hfiles; intros e on_disk H; discriminate H|].
  split; [exact Hix|]. split; [reflexivity|]. split; [|exact Hco].
  unfold disk_full.
  rewrite (Htorn _ _ _ _ eq_refl eq_refl eq_refl eq_refl). reflexivity.
Defined.

Section WorkerStore.

Lemma critical_section_files (env : device_env) (cfg : config)
    (filename device_hostname : str) (st : store) :
  let committed :=
    commit_to_git (git_add_error env) (git_commit_error env)
      filename device_hostname st in
  files committed = files st
  /\ dirs committed = dirs st
  /\ critical_section env cfg filename device_hostname st
     = cleanup_old_backups (matches env) (remove_error env) cfg device_hostname
         committed.
Proof.
  intros committed.
  destruct (commit_to_git_disk (git_add_error env) (git_commit_error env)
              filename device_hostname st) as [Hf Hd].
  repeat split; assumption.
Qed.


Lemma snapshots_ext (matches : str -> str -> bool) (cfg : config)
    (hostname : str) (a b : store) :
  files a = files b ->
  snapshots matches cfg hostname a = snapshots matches cfg hostname b.
Proof. unfold snapshots, glob. now intros ->. Qed.

End WorkerStore.

(** X9.  With a limit of at least one and distinct paths, a worker never
    deletes the snapshot it has just written, provided the write gives the
    file a modification time later than that of every file already on disk:
    after the commit and the retention pass the file is there with the
    configuration as fetched, whatever Git does and whatever removals the
    operating system refuses. *)
Theorem new_snapshot_survives (env : device_env) (cfg : config)
    (hostname : str) (st : store) (d : details) :
  fst (backup_router env cfg hostname st) = Returned (Success d) ->
  (1 <= MAX_BACKUPS cfg)%Z ->
  NoDup (map f_path (files st)) ->
  (forall g, In g (files st) -> (f_mtime g < write_mtime env)%Z) ->
  exists config_output error_output,
    session env = inr (config_output, error_output)
    /\ In {| f_path := path_join (path_join (BACKUP_DIR cfg) (d_hostname d))
                         (d_filename d);
             f_mtime := write_mtime env;
             f_data := config_output |}
          (files (snd (backup_router env cfg hostname st))).
Proof.
  intros Hok Hl Hnd Hnew.
  pose proof (backup_router_success _ _ _ _ _ Hok)
    as (co & eo & Hc & Hs & Hm & Hw & Hid & _ & Hts & Hfn).
  exists co, eo. split; [exact Hs|].
  destruct (fetch_and_save_saved env cfg hostname st co eo Hc Hs Hm Hw)
    as (Hfiles & _ & ->).
  rewrite Hfn, Hts, Hid.
  set (id := ConfigParser.sanitize (ConfigParser.extract_hostname hostname co)) in *.
  set (filename := id ++ lit "_" ++ get_timestamp (stamp_time env) ++ lit ".conf") in *.
  set (saved := snd (fetch_and_save env cfg hostname st)) in *.
  destruct (critical_section_files env cfg filename id saved) as (Hcf & _ & ->).
  set (fnew := {| f_path := path_join (path_join (BACKUP_DIR cfg) id) filename;
                  f_mtime := write_mtime env; f_data := co |}).
  apply cleanup_spares_newest; [exact Hl| | |].
  - rewrite Hcf, Hfiles. now apply write_file_distinct.
  - rewrite Hcf, Hfiles. apply write_file_In.
  - intros g Hg Hne. rewrite Hcf, Hfiles in Hg.
    apply write_file_In_inv in Hg as [Hg|Hg]; [contradiction|].
    now apply Hnew.
Qed.

Lemma new_snapshot_survives_witness :
  let env := Sample.device_store_down (lit "hostname R1") (Sample.clock 1 0) in
  let run := backup_router env (Sample.cfg 1) (lit "10.0.0.1") Sample.disk in
  In {| f_path := lit "/backups/R1/R1_20240101_000001.conf";
        f_mtime := 100; f_data := lit "hostname R1" |}
     (files (snd run)).
Proof.
  intros env run.
  assert (Hl : (1 <= MAX_BACKUPS (Sample.cfg 1))%Z) by (simpl; lia).
  assert (Hnd : NoDup (map f_path (files Sample.disk)))
    by (apply distinct_NoDup; reflexivity).
  assert (Hnew : forall g, In g (files Sample.disk) ->
                           (f_mtime g < write_mtime env)%Z).
  { intros g [<-|[<-|[<-|[]]]]; simpl; lia. }
  destruct (new_snapshot_survives env (Sample.cfg 1) (lit "10.0.0.1") Sample.disk
              _ eq_refl Hl Hnd Hnew) as (co & eo & Hs & Hin).
  injection Hs as <- <-. exact Hin.
Defined.



(** X19.  A worker keeps the paths on disk distinct: whatever it does,
    succeed or fail, overwrite a snapshot of the same name or add one, delete
    or be refused, no path is listed twice afterwards if none was before. *)
Theorem backup_router_keeps_paths_distinct (env : device_env) (cfg : config)
    (hostname : str) (st : store) :
  NoDup (map f_path (files st)) ->
  NoDup (map f_path (files (snd (backup_router env cfg hostname st)))).
Proof.
  intros Hnd.
  destruct (fst (backup_router env cfg hostname st)) as [[d|e]|exc] eqn:Hr.
  - pose proof (backup_router_success _ _ _ _ _ Hr)
      as (co & eo & Hc & Hs & Hm & Hw & _).
    destruct (fetch_and_save_saved env cfg hostname st co eo Hc Hs Hm Hw)
      as (Hfiles & _ & ->).
    match goal with
    | |- context [critical_section env cfg ?fn ?id ?saved] =>
        destruct (critical_section_files env cfg fn id saved) as (Hcf & _ & ->);
        destruct (cleanup_filter (matches env) (remove_error env) cfg id
                    (commit_to_git (git_add_error env) (git_commit_error env)
                       fn id saved)) as (removed & _ & ->)
    end.
    apply distinct_paths_filter. rewrite Hcf, Hfiles.
    now apply write_file_distinct.
  - destruct (backup_router_failed env cfg hostname st) as [-> _].
    + intros d. rewrite Hr. discriminate.
    + destruct (save_config_files env cfg hostname st) as [->|(p & data & ->)];
        [exact Hnd|now apply write_file_distinct].
  - destruct (backup_router_failed env cfg hostname st) as [-> _].
    + intros d. rewrite Hr. discriminate.
    + destruct (save_config_files env cfg hostname st) as [->|(p & data & ->)];
        [exact Hnd|now apply write_file_distinct].
Qed.

Lemma backup_router_keeps_paths_distinct_witness :
  let a := Sample.device (lit "hostname R1 ! site A") (Sample.clock 1 100) in
  let b := Sample.device (lit "hostname R1 ! site B") (Sample.clock 1 900) in
  let first := backup_router a (Sample.cfg 10) (lit "10.0.0.1") Sample.disk in
  let second := backup_router b (Sample.cfg 10) (lit "10.0.0.2") (snd first) in
  NoDup (map f_path (files Sample.disk))
  /\ NoDup (map f_path (files (snd second)))
  /\ List.length (files (snd second)) = 4.
Proof.
  intros a b first second.
  assert (Hnd : NoDup (map f_path (files Sample.disk)))
    by (apply distinct_NoDup; reflexivity).
  split; [exact Hnd|]. split; [|reflexivity].
  apply backup_router_keeps_paths_distinct.
  now apply backup_router_keeps_paths_distinct.
Defined.

(** ** The orchestrator, further (lines 208-295) *)

Section OrchestratorMore.

Lemma collect_ext (env1 env2 : job_env) (l : list (nat * str)) :
  (forall i host, future_result env1 i host = future_result env2 i host) ->
  forall acc, collect env1 l acc = collect env2 l acc.
Proof.
  intros H. induction l as [|[i host] l IH]; intros [ok bad]; cbn [collect];
    [reflexivity|].
  rewrite H. destruct (future_result env2 i host) as [[d|e]|exc]; apply IH.
Qed.

Lemma send_posts (cfg : config) (e1 e2 : option str) (message : str) (w : wire) :
  fst (send_telegram_notification cfg e1 message w)
  = fst (send_telegram_notification cfg e2 message w).
Proof.
  unfold send_telegram_notification. destruct w as [sent out].
  now destruct (negb _ || negb _).
Qed.

Lemma records_nonempty (env : job_env) (l : list (nat * str)) :
  nonempty_list (flat_map (failure_of env) l)
  || nonempty_list (flat_map (success_of env) l) = nonempty_list l.
Proof.
  pose proof (contributions_total env l) as H.
  destruct l as [|f l]; [reflexivity|].
  destruct (flat_map (failure_of env) (f :: l)); [|reflexivity].
  destruct (flat_map (success_of env) (f :: l)); [|reflexivity].
  simpl in H. discriminate.
Qed.

(** The addresses the records of some futures carry, when the futures are
    calls of [backup_router]. *)
Lemma record_addresses (cfg : config) (devs : nat -> device_env)
    (sts : nat -> store) (env : job_env) (l : list (nat * str)) :
  Permutation
    (map d_ip (flat_map (success_of (pool cfg devs sts env)) l)
     ++ map ip (flat_map (failure_of (pool cfg devs sts env)) l))
    (map (fun f => strip (snd f)) l).
Proof.
  induction l as [|[i host] l IH]; cbn [flat_map map]; [constructor|].
  unfold success_of at 1, failure_of at 1. cbn [fst snd pool future_result].
  destruct (fst (backup_router (devs i) cfg host (sts i))) as [[d|e]|exc] eqn:Hr;
    cbn [app map ip].
  - apply backup_router_success in Hr as (_ & _ & _ & _ & _ & _ & _ & Hip & _).
    rewrite Hip. now constructor.
  - etransitivity; [symmetry; apply Permutation_middle|]. now constructor.
  - etransitivity; [symmetry; apply Permutation_middle|]. now constructor.
Qed.

End OrchestratorMore.

(** X14.  With credentials and the Telegram variables set, a run makes
    exactly one delivery attempt when it dispatched at least one worker and
    none otherwise; the request goes to the bot's [sendMessage] address with
    the chat identifier, the Markdown flag and the message built from the two
    record lists. *)
Theorem one_post_per_run (env : job_env) (cfg : config) :
  truthy (USERNAME cfg) = true ->
  truthy (PASSWORD cfg) = true ->
  truthy (TELEGRAM_BOT_TOKEN cfg) = true ->
  truthy (TELEGRAM_CHAT_ID cfg) = true ->
  let r := main env cfg in
  posted r =
  match dispatched r with
  | [] => []
  | _ :: _ =>
      [{| url := lit "https://api.telegram.org/bot"
                 ++ getenv (TELEGRAM_BOT_TOKEN cfg) ++ lit "/sendMessage";
          chat_id := getenv (TELEGRAM_CHAT_ID cfg);
          text := build_message env (List.length (ROUTER_HOSTS cfg))
                    (success_details r) (failed_hosts r)
                    (total_seconds (job_start_time env) (job_end_time env))
                    (job_end_time env);
          parse_mode := lit "Markdown" |}]
  end.
Proof.
  intros Hu Hp Ht Hc r. unfold r, main.
  destruct (no_routers (ROUTER_HOSTS cfg)); [reflexivity|].
  rewrite Hu, Hp. cbn [negb orb].
  destruct (setup env) as [out0 [e|]]; [reflexivity|].
  rewrite collect_spec. cbn [app].
  rewrite records_nonempty.
  assert (Hlen : List.length (as_completed env (submit (ROUTER_HOSTS cfg)))
                 = List.length (submit (ROUTER_HOSTS cfg)))
    by apply sort_by_length.
  destruct (as_completed env (submit (ROUTER_HOSTS cfg))) as [|f done] eqn:Ed;
    destruct (submit (ROUTER_HOSTS cfg)) as [|g rest] eqn:Es;
    try discriminate; cbn [nonempty_list]; [reflexivity|].
  unfold send_telegram_notification. rewrite Ht, Hc. reflexivity.
Qed.

Lemma one_post_per_run_witness :
  let cfg := Sample.fleet (Some (lit "123:abc")) (Some (lit "42")) in
  let r := main Sample.job cfg in
  List.length (dispatched r) = 3
  /\ map url (posted r) = [lit "https://api.telegram.org/bot123:abc/sendMessage"]
  /\ map chat_id (posted r) = [lit "42"].
Proof.
  intros cfg r.
  pose proof (one_post_per_run Sample.job cfg eq_refl eq_refl eq_refl eq_refl) as H.
  split; [reflexivity|]. fold r in H. rewrite H. split; reflexivity.
Defined.

(** X15.  Whether the delivery of the notification succeeds or fails
    changes nothing in the result of the run: the futures, both record lists
    and the request made are the same. *)
Theorem delivery_failure_keeps_result (env : job_env) (cfg : config)
    (e : option str) :
  let r := main env cfg in
  let r' := main (with_post_error e env) cfg in
  dispatched r' = dispatched r
  /\ success_details r' = success_details r
  /\ failed_hosts r' = failed_hosts r
  /\ posted r' = posted r.
Proof.
  intros r r'. unfold r, r', main.
  destruct (no_routers (ROUTER_HOSTS cfg)); [repeat split|].
  destruct (negb _ || negb _); [repeat split|].
  change (setup (with_post_error e env)) with (setup env).
  destruct (setup env) as [out0 [x|]]; [repeat split|].
  change (as_completed (with_post_error e env)) with (as_completed env).
  rewrite (collect_ext (with_post_error e env) env) by reflexivity.
  destruct (collect env _ _) as [ok bad].
  cbn [with_post_error post_error job_start_time job_end_time build_message].
  destruct (nonempty_list bad || nonempty_list ok); [|repeat split].
  match goal with
  | |- context [send_telegram_notification cfg e ?m ?w] =>
      pose proof (send_posts cfg e (post_error env) m w) as Hs;
      destruct (send_telegram_notification cfg e m w) as [s1 o1];
      destruct (send_telegram_notification cfg (post_error env) m w) as [s2 o2]
  end.
  cbn [fst] in Hs. subst. repeat split.
Qed.

(** X16.  When the futures are calls of [backup_router], credentials are
    set and the set-up of lines 217-221 raises nothing, every record carries
    the stripped address of its device, and the addresses of the success and
    failure records together are exactly the stripped non-empty addresses of
    the device list, each as often as it is listed. *)
Theorem records_carry_addresses (cfg : config) (devs : nat -> device_env)
    (sts : nat -> store) (env : job_env) :
  truthy (USERNAME cfg) = true ->
  truthy (PASSWORD cfg) = true ->
  snd (setup env) = None ->
  let r := main (pool cfg devs sts env) cfg in
  Permutation
    (map d_ip (success_details r) ++ map ip (failed_hosts r))
    (map strip (filter nonempty (ROUTER_HOSTS cfg))).
Proof.
  intros Hu Hp Hset r. unfold r.
  destruct (no_routers (ROUTER_HOSTS cfg)) eqn:Hr.
  - destruct (main_quiet (pool cfg devs sts env) cfg (or_introl Hr))
      as (_ & -> & -> & _).
    rewrite (no_routers_live _ Hr). constructor.
  - destruct (main_running (pool cfg devs sts env) cfg Hr Hu Hp Hset)
      as (_ & -> & -> & _).
    etransitivity; [apply record_addresses|].
    rewrite <- submit_hosts, map_map.
    apply Permutation_map, sort_by_perm.
Qed.

Lemma records_carry_addresses_witness :
  let cfg := Sample.fleet None None in
  let r := main (pool cfg Sample.workers (fun _ => Sample.empty_disk) Sample.job) cfg in
  snd (setup Sample.job) = None
  /\ Permutation
       (map d_ip (success_details r) ++ map ip (failed_hosts r))
       [lit "10.0.0.1"; lit "10.0.0.2"; lit "10.0.0.3"].
Proof.
  intros cfg r. split; [reflexivity|].
  exact (records_carry_addresses cfg Sample.workers (fun _ => Sample.empty_disk)
           Sample.job eq_refl eq_refl eq_refl).
Defined.

(** X21.  Past the check of line 209 the thread pool of line 231 has
    between one and ten workers, so its constructor never sees a size of
    zero, and no more futures are submitted than the device list has
    entries. *)
Theorem pool_size_bounds (cfg : config) :
  no_routers (ROUTER_HOSTS cfg) = false ->
  1 <= max_workers cfg <= 10
  /\ List.length (submit (ROUTER_HOSTS cfg)) <= List.length (ROUTER_HOSTS cfg).
Proof.
  intros H. unfold max_workers. split.
  - destruct (ROUTER_HOSTS cfg); [discriminate|]. simpl List.length. lia.
  - rewrite <- (length_map snd), submit_hosts. apply filter_length_le.
Qed.

Lemma pool_size_bounds_witness :
  let cfg := Sample.misconfigured (Some (lit ",,")) (Some (lit "admin")) in
  no_routers (ROUTER_HOSTS cfg) = false
  /\ max_workers cfg = 3
  /\ List.length (submit (ROUTER_HOSTS cfg)) = 0
  /\ 1 <= max_workers cfg <= 10.
Proof.
  intros cfg. split; [reflexivity|]. split; [reflexivity|]. split; [reflexivity|].
  exact (proj1 (pool_size_bounds cfg eq_refl)).
Defined.

(** ** Workers running side by side, further *)

Module LockingMore.
Import Locking.

Section Workers.

Variable cfg : config.
Variable env : nat -> device_env.
Variable host : nat -> str.

(** The worker inside the block goes on to its end by its own steps, which
    clears the lock and moves no other worker. *)
Lemma holder_finishes (s : state) (h : nat) :
  in_region (pcs s h) = true ->
  exists s' d,
    steps cfg env host s s'
    /\ (pcs s h = Committing d \/ pcs s h = Cleaning d)
    /\ pcs s' h = Done (Returned (Success d))
    /\ locked s' = false
    /\ forall k, k <> h -> pcs s' k = pcs s k.
Proof.
  intros Hin. destruct (pcs s h) as [|w|d|d|d|r] eqn:Hh; try discriminate.
  - set (s1 := {| locked := locked s; pcs := set_pc h (Cleaning d) (pcs s);
                  shared := commit_to_git (git_add_error (env h))
                              (git_commit_error (env h))
                              (d_filename d) (d_hostname d) (shared s) |}).
    exists {| locked := false;
              pcs := set_pc h (Done (Returned (Success d))) (pcs s1);
              shared := cleanup_old_backups (matches (env h)) (remove_error (env h))
                          cfg (d_hostname d) (shared s1) |}, d.
    split; [|split; [now left|split; [|split; [reflexivity|]]]].
    + eapply steps_more; [apply step_commit; exact Hh|].
      apply LockingFacts.steps_one. apply step_cleanup.
      apply LockingFacts.set_pc_same.
    + apply LockingFacts.set_pc_same.
    + intros k Hk. cbn [pcs s1].
      now rewrite !LockingFacts.set_pc_other by exact Hk.
  - exists {| locked := false;
              pcs := set_pc h (Done (Returned (Success d))) (pcs s);
              shared := cleanup_old_backups (matches (env h)) (remove_error (env h))
                          cfg (d_hostname d) (shared s) |}, d.
    split; [|split; [now right|split; [|split; [reflexivity|]]]].
    + apply LockingFacts.steps_one. apply step_cleanup. exact Hh.
    + apply LockingFacts.set_pc_same.
    + intros k Hk. cbn [pcs]. now rewrite LockingFacts.set_pc_other by exact Hk.
Qed.

(** A worker waiting at line 173 gets the lock: at once when it is clear,
    and after the steps of its holder when it is set. *)
Lemma waiting_acquires (st0 : store) (s : state) (i : nat) (d : details) :
  reachable cfg env host st0 s ->
  pcs s i = Waiting d ->
  exists s',
    steps cfg env host s s'
    /\ pcs s' i = Committing d
    /\ locked s' = true.
Proof.
  intros Hreach Hpc.
  destruct (LockingFacts.reachable_exclusive cfg env host st0 s Hreach)
    as [[Hfree _]|(_ & h & Hh & _)].
  - eexists. split.
    + apply LockingFacts.steps_one. eapply step_acquire; eassumption.
    + cbn [pcs locked]. now rewrite LockingFacts.set_pc_same.
  - destruct (holder_finishes s h Hh) as (s1 & d' & Hsteps & _ & _ & Hfree & Hsame).
    assert (Hne : i <> h) by (intros ->; rewrite Hpc in Hh; discriminate).
    assert (Hpc1 : pcs s1 i = Waiting d) by now rewrite (Hsame i Hne).
    eexists. split.
    + eapply LockingFacts.steps_trans; [exact Hsteps|].
      apply LockingFacts.steps_one. eapply step_acquire; eassumption.
    + cbn [pcs locked]. now rewrite LockingFacts.set_pc_same.
Qed.

Lemma waiting_finishes (st0 : store) (s : state) (i : nat) (d : details) :
  reachable cfg env host st0 s ->
  pcs s i = Waiting d ->
  exists s1 s2,
    steps cfg env host s s1
    /\ pcs s1 i = Committing d /\ locked s1 = true
    /\ steps cfg env host s1 s2
    /\ pcs s2 i = Done (Returned (Success d)) /\ locked s2 = false.
Proof.
  intros Hreach Hpc.
  destruct (waiting_acquires st0 s i d Hreach Hpc) as (s1 & H1 & Hpc1 & Hl1).
  destruct (holder_finishes s1 i) as (s2 & d' & H2 & Hd & Hpc2 & Hl2 & _).
  { now rewrite Hpc1. }
  assert (d' = d) by (destruct Hd as [Hd|Hd]; congruence). subst d'.
  exists s1, s2. repeat split; assumption.
Qed.

(** Two workers that write the same path: the first writes, the second
    writes over it, and only then the first reads the size. *)
Lemma stale_size (st0 : store) (i j : nat) (ci ei cj ej : str) :
  i <> j ->
  nonempty (host i) = true -> nonempty (host j) = true ->
  client_error (env i) = None -> session (env i) = inr (ci, ei) ->
  makedirs_error (env i) = None -> write_error (env i) = None ->
  client_error (env j) = None -> session (env j) = inr (cj, ej) ->
  makedirs_error (env j) = None -> write_error (env j) = None ->
  ConfigParser.sanitize (ConfigParser.extract_hostname (host i) ci)
  = ConfigParser.sanitize (ConfigParser.extract_hostname (host j) cj) ->
  get_timestamp (stamp_time (env i)) = get_timestamp (stamp_time (env j)) ->
  exists s d,
    reachable cfg env host st0 s
    /\ pcs s i = Waiting d
    /\ pcs s j <> Fetching
    /\ locked s = false
    /\ d_ip d = strip (host i)
    /\ d_filename d
       = ConfigParser.sanitize (ConfigParser.extract_hostname (host i) ci)
         ++ lit "_" ++ get_timestamp (stamp_time (env i)) ++ lit ".conf"
    /\ d_size_kb d = Qmake (Z.of_nat (utf8_size cj)) 1024.
Proof.
  intros Hij Hli Hlj Hci Hsi Hmi Hwi Hcj Hsj Hmj Hwj Hid Hts.
  (* the first worker writes *)
  destruct (save_config_ok (env i) cfg (host i) st0 ci ei Hci Hsi Hmi Hwi)
    as (Hfst1 & _ & _).
  cbv zeta in Hfst1.
  destruct (save_config (env i) cfg (host i) st0) as [o1 st1] eqn:E1.
  cbn [fst] in Hfst1. subst o1.
  set (wi := {| l_hostname := ConfigParser.sanitize
                                (ConfigParser.extract_hostname (host i) ci);
                l_timestamp := get_timestamp (stamp_time (env i));
                l_filename := _; l_filepath := _ |}) in E1.
  set (s1 := {| locked := false; pcs := set_pc i (Written wi) (pcs (init st0));
                shared := st1 |}).
  assert (R1 : reachable cfg env host st0 s1).
  { eapply reach_step; [apply reach_init|].
    apply (step_saved cfg env host i (init st0) wi st1);
      [reflexivity|exact Hli|exact E1]. }
  (* the second worker writes over it *)
  destruct (save_config_ok (env j) cfg (host j) st1 cj ej Hcj Hsj Hmj Hwj)
    as (Hfst2 & Hfiles2 & _).
  cbv zeta in Hfst2, Hfiles2.
  destruct (save_config (env j) cfg (host j) st1) as [o2 st2] eqn:E2.
  cbn [fst snd] in Hfst2, Hfiles2. subst o2.
  rewrite <- Hid, <- Hts in E2, Hfiles2.
  fold wi in E2. change (path_join _ _) with (l_filepath wi) in Hfiles2.
  set (s2 := {| locked := false; pcs := set_pc j (Written wi) (pcs s1);
                shared := st2 |}).
  assert (R2 : reachable cfg env host st0 s2).
  { eapply reach_step; [exact R1|].
    apply (step_saved cfg env host j s1 wi st2); [|exact Hlj|exact E2].
    cbn [pcs s1]. rewrite LockingFacts.set_pc_other by congruence. reflexivity. }
  (* the first worker reads the size *)
  assert (Hpc2 : pcs s2 i = Written wi).
  { cbn [pcs s2 s1]. rewrite LockingFacts.set_pc_other by exact Hij.
    apply LockingFacts.set_pc_same. }
  assert (M : measure (env i) (host i) wi st2
              = (inr {| d_hostname := l_hostname wi;
                        d_ip := strip (host i);
                        d_filename := l_filename wi;
                        d_size_kb := Qmake (Z.of_nat (utf8_size cj)) 1024;
                        d_duration := total_seconds (start_time (env i))
                                        (end_time (env i));
                        d_timestamp := l_timestamp wi |},
                 print (lit "Backup saved to " ++ l_filepath wi) st2)).
  { unfold measure. now rewrite Hfiles2, getsize_write_file. }
  eexists. eexists. split.
  { eapply reach_step; [exact R2|].
    apply (step_measured cfg env host i s2 wi _ _ Hpc2 M). }
  cbn [pcs locked s2 s1]. rewrite LockingFacts.set_pc_same.
  split; [reflexivity|]. split.
  { rewrite LockingFacts.set_pc_other by congruence.
    rewrite LockingFacts.set_pc_same. discriminate. }
  repeat split.
Qed.

End Workers.

End LockingMore.

(** X17.  The lock never strands a worker: in every state the workers can
    reach, a worker waiting at line 173 can go on.  There are steps after
    which it holds the lock (none but its own when the lock is clear, those
    of the holder up to its release when it is set), and further steps after
    which it has returned its success record and the lock is clear again. *)
Theorem lock_never_deadlocks (cfg : config) (env : nat -> device_env)
    (host : nat -> str) (st0 : store) (s : Locking.state) (i : nat)
    (d : details) :
  Locking.reachable cfg env host st0 s ->
  Locking.pcs s i = Locking.Waiting d ->
  exists s1 s2,
    Locking.steps cfg env host s s1
    /\ Locking.pcs s1 i = Locking.Committing d /\ Locking.locked s1 = true
    /\ Locking.steps cfg env host s1 s2
    /\ Locking.pcs s2 i = Locking.Done (Returned (Success d))
    /\ Locking.locked s2 = false.
Proof. apply LockingMore.waiting_finishes. Qed.

Lemma lock_never_deadlocks_witness :
  exists s d,
    Locking.reachable (Sample.cfg 10) Sample.workers Sample.hosts Sample.empty_disk s
    /\ Locking.locked s = true
    /\ Locking.in_region (Locking.pcs s 0) = true
    /\ Locking.pcs s 1 = Locking.Waiting d
    /\ exists s1 s2,
         Locking.steps (Sample.cfg 10) Sample.workers Sample.hosts s s1
         /\ Locking.pcs s1 1 = Locking.Committing d /\ Locking.locked s1 = true
         /\ Locking.steps (Sample.cfg 10) Sample.workers Sample.hosts s1 s2
         /\ Locking.pcs s2 1 = Locking.Done (Returned (Success d))
         /\ Locking.locked s2 = false.
Proof.
  eassert (R : Locking.reachable (Sample.cfg 10) Sample.workers Sample.hosts
                 Sample.empty_disk _).
  { eapply LockingFacts.reachable_steps; [apply Locking.reach_init|].
    take (Locking.step_saved _ _ _ 0). take (Locking.step_measured _ _ _ 0).
    take (Locking.step_saved _ _ _ 1). take (Locking.step_measured _ _ _ 1).
    take (Locking.step_acquire _ _ _ 0). apply Locking.steps_none. }
  eexists. eexists. split; [exact R|]. split; [reflexivity|].
  split; [reflexivity|]. split; [reflexivity|].
  exact (lock_never_deadlocks _ _ _ _ _ 1 _ R eq_refl).
Defined.

(** X18.  The size in a success record is read back from disk at line
    163, before the lock is taken, so it can be the size of another worker's
    data.  When two workers of one run find the same identity within the same
    second, there is an interleaving in which the first writes its snapshot,
    the second writes over it, and the first then reads the size: the first
    worker reaches line 173 with a record that carries its own address and
    file name and the size of the second worker's configuration. *)
Theorem size_read_outside_lock (cfg : config) (env : nat -> device_env)
    (host : nat -> str) (st0 : store) (i j : nat) (ci ei cj ej : str) :
  i <> j ->
  nonempty (host i) = true -> nonempty (host j) = true ->
  client_error (env i) = None -> session (env i) = inr (ci, ei) ->
  makedirs_error (env i) = None -> write_error (env i) = None ->
  client_error (env j) = None -> session (env j) = inr (cj, ej) ->
  makedirs_error (env j) = None -> write_error (env j) = None ->
  ConfigParser.sanitize (ConfigParser.extract_hostname (host i) ci)
  = ConfigParser.sanitize (ConfigParser.extract_hostname (host j) cj) ->
  get_timestamp (stamp_time (env i)) = get_timestamp (stamp_time (env j)) ->
  exists s d,
    Locking.reachable cfg env host st0 s
    /\ Locking.pcs s i = Locking.Waiting d
    /\ Locking.pcs s j <> Locking.Fetching
    /\ Locking.locked s = false
    /\ d_ip d = strip (host i)
    /\ d_filename d
       = ConfigParser.sanitize (ConfigParser.extract_hostname (host i) ci)
         ++ lit "_" ++ get_timestamp (stamp_time (env i)) ++ lit ".conf"
    /\ d_size_kb d = Qmake (Z.of_nat (utf8_size cj)) 1024.
Proof. apply LockingMore.stale_size. Qed.

Lemma size_read_outside_lock_witness :
  exists s d,
    Locking.reachable (Sample.cfg 10) Sample.twins Sample.hosts Sample.empty_disk s
    /\ Locking.pcs s 0 = Locking.Waiting d
    /\ d_ip d = lit "10.0.0.1"
    /\ utf8_size (lit "hostname R1") = 11
    /\ d_size_kb d = Qmake 25 1024.
Proof.
  destruct (size_read_outside_lock (Sample.cfg 10) Sample.twins Sample.hosts
              Sample.empty_disk 0 1
              (lit "hostname R1") [] (lit "hostname R1 ! second site") [])
    as (s & d & R & Hpc & _ & _ & Hip & _ & Hsize);
    try reflexivity; try discriminate.
  exists s, d. split; [exact R|]. split; [exact Hpc|]. split; [exact Hip|].
  split; [reflexivity|]. rewrite Hsize. reflexivity.
Defined.

(** ** History (lines 61-71, 94-97) *)

Section HistoryFacts.

Lemma commit_to_git_appends (add_error commit_error : option str)
    (filename hostname : str) (st : store) :
  exists extra,
    commits (commit_to_git add_error commit_error filename hostname st)
    = commits st ++ extra.
Proof.
  unfold commit_to_git. destruct add_error; [|destruct commit_error].
  - exists []. now rewrite app_nil_r.
  - exists []. now rewrite app_nil_r.
  - eexists. reflexivity.
Qed.

Lemma step_appends (cfg : config) (env : nat -> device_env) (host : nat -> str)
    (s s' : Locking.state) :
  Locking.step cfg env host s s' ->
  exists extra,
    commits (Locking.shared s') = commits (Locking.shared s) ++ extra.
Proof.
  intros Hstep. destruct Hstep as
    [k s r st' Hpc _ E|k s w st' Hpc _ E|k s w r st' Hpc E|k s w d st' Hpc E
    |k s d Hpc Hfree|k s d Hpc|k s d Hpc|k s e Hk];
    cbn [Locking.shared].
  - pose proof (save_config_frame (env k) cfg (host k) (Locking.shared s)) as F.
    rewrite E in F. destruct F as (_ & F & _). exists []. now rewrite app_nil_r.
  - pose proof (save_config_frame (env k) cfg (host k) (Locking.shared s)) as F.
    rewrite E in F. destruct F as (_ & F & _). exists []. now rewrite app_nil_r.
  - pose proof (measure_frame (env k) (host k) w (Locking.shared s)) as F.
    rewrite E in F. destruct F as (_ & _ & _ & F). exists []. now rewrite app_nil_r.
  - pose proof (measure_frame (env k) (host k) w (Locking.shared s)) as F.
    rewrite E in F. destruct F as (_ & _ & _ & F). exists []. now rewrite app_nil_r.
  - exists []. now rewrite app_nil_r.
  - apply commit_to_git_appends.
  - destruct (cleanup_rest (matches (env k)) (remove_error (env k)) cfg
                (d_hostname d) (Locking.shared s)) as (_ & _ & ->).
    exists []. now rewrite app_nil_r.
  - exists []. now rewrite app_nil_r.
Qed.

End HistoryFacts.

(** X20.  History is append-only under every interleaving: in each state
    the workers can reach, the commits of the initial store are still there,
    in order, at the front of the history; neither a worker nor a retention
    pass removes or rewrites a commit. *)
Theorem history_append_only (cfg : config) (env : nat -> device_env)
    (host : nat -> str) (st0 : store) (s : Locking.state) :
  Locking.reachable cfg env host st0 s ->
  exists extra, commits (Locking.shared s) = commits st0 ++ extra.
Proof.
  induction 1 as [|s s' _ [extra IH] Hstep].
  - exists []. cbn. now rewrite app_nil_r.
  - destruct (step_appends cfg env host s s' Hstep) as [more ->].
    exists (extra ++ more). now rewrite IH, app_assoc.
Qed.

Lemma history_append_only_witness :
  exists s,
    Locking.reachable (Sample.cfg 10) Sample.workers Sample.hosts Sample.empty_disk s
    /\ commits (Locking.shared s) = [lit "Backup C - C_20240101_000001.conf"]
    /\ exists extra,
         commits (Locking.shared s) = commits Sample.empty_disk ++ extra.
Proof.
  eassert (R : Locking.reachable (Sample.cfg 10) Sample.workers Sample.hosts
                 Sample.empty_disk _).
  { eapply LockingFacts.reachable_steps; [apply Locking.reach_init|].
    take (Locking.step_saved _ _ _ 1). take (Locking.step_measured _ _ _ 1).
    take (Locking.step_acquire _ _ _ 1). take (Locking.step_commit _ _ _ 1).
    apply Locking.steps_none. }
  eexists. split; [exact R|]. split; [reflexivity|].
  exact (history_append_only _ _ _ _ _ R).
Defined.
